(** * Snake game core: a shallow embedding of [snake_core.c] and its properties

    The C module keeps the whole game in one [GameState] object that every
    function receives through a pointer.  The embedding follows that shape:

    - the object is a record [GameState]; a function that mutates it takes the
      contents before the call and returns the contents after it;
    - the pointer argument is a [GamePtr], either [NULL] or [PTR], the address
      of the object, so that the null checks of the source are kept;
    - an [int] is a [Z] within [INT_MIN .. INT_MAX]; [/] is [Z.quot] and [%] is
      [Z.rem] (C truncates towards zero).  Where the source adds or subtracts
      values that can leave that range (the step of the head, the score) the
      result is reduced by [wrap_int], the two's complement wrap-around of the
      compiled code; the other sums ([snake_length++] under its guard,
      [start_x - i], the loop counters, [get_random] on [0 .. width-1]) stay
      in range for [int] operands.  Division by zero is undefined in C; here
      [Z.rem a 0 = a];
    - the array [snake[MAX_SNAKE_LENGTH]] is a list read with [!!!] and written
      with [<[i:=v]>]; accesses outside the array are undefined in C, here a
      read yields the inhabitant and a write is dropped;
    - [rand()] reads from an explicit stream of non-negative draws which is
      threaded through the functions that consume it. *)

From Stdlib Require Import ZArith Lia Bool.
From stdpp Require Import base list.

Local Open Scope Z_scope.

(** ** Data model ([snake_core.h]) *)

Definition MAX_SNAKE_LENGTH : Z := 100.
Definition INITIAL_SNAKE_LENGTH : Z := 3.

(** ** The type [int] (32 bits) *)

Definition INT_MIN : Z := -2147483648.
Definition INT_MAX : Z := 2147483647.

Definition is_int (z : Z) : Prop := INT_MIN <= z <= INT_MAX.

(** The [int] that results from an arithmetic result [z]: [z] reduced modulo
    2^32 into [INT_MIN .. INT_MAX]. *)
Definition wrap_int (z : Z) : Z :=
  (z + 2147483648) mod 4294967296 - 2147483648.

Inductive Direction : Set := UP | RIGHT | DOWN | LEFT.

(** [px], [py] are the fields [x], [y] of the C struct. *)
Record Point : Set := mkPoint { px : Z; py : Z }.

Record SnakeSegment : Set := mkSegment { position : Point }.

Record Food : Set := mkFood { food_position : Point; value : Z }.

Record GameState : Set := mkGame {
  width : Z;
  height : Z;
  snake : list SnakeSegment;
  snake_length : Z;
  direction : Direction;
  food : Food;
  score : Z;
  game_over : bool
}.

(** The pointer handed to every function. *)
Inductive GamePtr : Set := NULL | PTR.

#[global] Instance Point_inhabited : Inhabited Point := populate (mkPoint 0 0).
#[global] Instance SnakeSegment_inhabited : Inhabited SnakeSegment :=
  populate (mkSegment inhabitant).

(** Field assignments. *)
Definition set_snake (g : GameState) (s : list SnakeSegment) : GameState :=
  mkGame (width g) (height g) s (snake_length g) (direction g) (food g)
         (score g) (game_over g).
Definition set_snake_length (g : GameState) (n : Z) : GameState :=
  mkGame (width g) (height g) (snake g) n (direction g) (food g)
         (score g) (game_over g).
Definition set_dir (g : GameState) (d : Direction) : GameState :=
  mkGame (width g) (height g) (snake g) (snake_length g) d (food g)
         (score g) (game_over g).
Definition set_food (g : GameState) (f : Food) : GameState :=
  mkGame (width g) (height g) (snake g) (snake_length g) (direction g) f
         (score g) (game_over g).
Definition set_score (g : GameState) (n : Z) : GameState :=
  mkGame (width g) (height g) (snake g) (snake_length g) (direction g) (food g)
         n (game_over g).
Definition set_game_over (g : GameState) (b : bool) : GameState :=
  mkGame (width g) (height g) (snake g) (snake_length g) (direction g) (food g)
         (score g) b.

(** ** The random source

    [init_random] seeds the C generator once; which sequence [rand()] then
    produces is unknown, so the functions below take the sequence as an
    argument.  [rand()] returns a value in [0 .. RAND_MAX], hence [N]. *)

Definition Rand : Type := nat -> N.

Definition rand (r : Rand) : Z * Rand := (Z.of_N (r O), fun n => r (S n)).

(** [min + rand() % (max - min + 1)] *)
Definition get_random (min max : Z) (r : Rand) : Z * Rand :=
  let '(v, r') := rand r in (min + Z.rem v (max - min + 1), r').

(** ** Queries *)

(** The comparison [a.x == b.x && a.y == b.y] the source writes out in full. *)
Definition same_cell (a b : Point) : bool := (px a =? px b) && (py a =? py b).

(** [for (; n iterations; i++) if (snake[i].position == p) return true;] *)
Fixpoint hits_segment (s : list SnakeSegment) (p : Point) (i n : nat) : bool :=
  match n with
  | O => false
  | S n' => if same_cell (position (s !!! i)) p then true
            else hits_segment s p (S i) n'
  end.

Definition check_self_collision (game : GamePtr) (pos : Point) (m : GameState)
  : bool :=
  match game with
  | NULL => false
  | PTR => hits_segment (snake m) pos 1 (Z.to_nat (snake_length m - 1))
  end.

Definition is_food_position (game : GamePtr) (pos : Point) (m : GameState)
  : bool :=
  match game with
  | NULL => false
  | PTR => same_cell (food_position (food m)) pos
  end.

Definition empty : Point := mkPoint (-1) (-1).

Definition get_snake_segment (game : GamePtr) (index : Z) (m : GameState)
  : Point :=
  match game with
  | NULL => empty
  | PTR => if (index <? 0) || (snake_length m <=? index) then empty
           else position (snake m !!! Z.to_nat index)
  end.

Definition get_food_position (game : GamePtr) (m : GameState) : Point :=
  match game with
  | NULL => empty
  | PTR => food_position (food m)
  end.

Definition get_score (game : GamePtr) (m : GameState) : Z :=
  match game with
  | NULL => 0
  | PTR => score m
  end.

Definition is_game_over (game : GamePtr) (m : GameState) : bool :=
  match game with
  | NULL => true
  | PTR => game_over m
  end.

(** ** Food *)

(** The inner loop of [spawn_food]: does [p] overlap a segment [0 .. length-1]? *)
Definition on_snake (m : GameState) (p : Point) : bool :=
  hits_segment (snake m) p 0 (Z.to_nat (snake_length m)).

(** The [while (!valid_position && attempts < MAX_ATTEMPTS)] loop; [n] counts
    the attempts that are left. *)
Fixpoint random_attempts (m : GameState) (n : nat) (r : Rand)
  : option Point * Rand :=
  match n with
  | O => (None, r)
  | S n' =>
      let '(cx, r1) := get_random 0 (width m - 1) r in
      let '(cy, r2) := get_random 0 (height m - 1) r1 in
      let candidate := mkPoint cx cy in
      if on_snake m candidate then random_attempts m n' r2
      else (Some candidate, r2)
  end.

(** [for (x = cx; n iterations; x++)] of the fallback scan, on row [cy]. *)
Fixpoint scan_row (m : GameState) (cy cx : Z) (n : nat) : option Point :=
  match n with
  | O => None
  | S n' => if on_snake m (mkPoint cx cy) then scan_row m cy (cx + 1) n'
            else Some (mkPoint cx cy)
  end.

(** [for (y = cy; n iterations; y++)] of the fallback scan. *)
Fixpoint scan_rows (m : GameState) (cy : Z) (n : nat) : option Point :=
  match n with
  | O => None
  | S n' => match scan_row m cy 0 (Z.to_nat (width m)) with
            | Some p => Some p
            | None => scan_rows m (cy + 1) n'
            end
  end.

Definition scan_grid (m : GameState) : option Point :=
  scan_rows m 0 (Z.to_nat (height m)).

Definition MAX_ATTEMPTS : nat := 100.

Definition spawn_food (game : GamePtr) (m : GameState) (r : Rand)
  : GameState * Rand :=
  match game with
  | NULL => (m, r)
  | PTR =>
      match random_attempts m MAX_ATTEMPTS r with
      | (Some p, r') => (set_food m (mkFood p 10), r')
      | (None, r') =>
          match scan_grid m with
          | Some p => (set_food m (mkFood p 10), r')
          | None => (m, r')
          end
      end
  end.

(** ** Initialisation *)

(** [for (; n iterations; i++) snake[i].position = (start_x - i, start_y);] *)
Fixpoint place_snake (s : list SnakeSegment) (start_x start_y : Z) (i n : nat)
  : list SnakeSegment :=
  match n with
  | O => s
  | S n' =>
      place_snake (<[i := mkSegment (mkPoint (start_x - Z.of_nat i) start_y)]> s)
                  start_x start_y (S i) n'
  end.

Definition initialize_game (game : GamePtr) (w h : Z) (m : GameState) (r : Rand)
  : GameState * Rand :=
  match game with
  | NULL => (m, r)
  | PTR =>
      let m1 := mkGame w h (snake m) INITIAL_SNAKE_LENGTH RIGHT (food m) 0 false in
      let start_x := Z.quot w 2 in
      let start_y := Z.quot h 2 in
      let m2 := set_snake m1 (place_snake (snake m1) start_x start_y 0
                                          (Z.to_nat (snake_length m1))) in
      spawn_food game m2 r
  end.

Definition reset_game (game : GamePtr) (m : GameState) (r : Rand)
  : GameState * Rand :=
  match game with
  | NULL => (m, r)
  | PTR => initialize_game game (width m) (height m) m r
  end.

(** ** Movement *)

Definition get_new_position (current : Point) (dir : Direction) (w h : Z)
  : Point :=
  match dir with
  | UP =>
      mkPoint (px current)
              (Z.rem (wrap_int (wrap_int (py current - 1) + h)) h)
  | RIGHT => mkPoint (Z.rem (wrap_int (px current + 1)) w) (py current)
  | DOWN => mkPoint (px current) (Z.rem (wrap_int (py current + 1)) h)
  | LEFT =>
      mkPoint (Z.rem (wrap_int (wrap_int (px current - 1) + w)) w)
              (py current)
  end.

(** [for (i = n; i > 0; i--) snake[i].position = snake[i-1].position;] *)
Fixpoint shift_body (s : list SnakeSegment) (i : nat) : list SnakeSegment :=
  match i with
  | O => s
  | S k => shift_body (<[S k := mkSegment (position (s !!! k))]> s) k
  end.

Definition update_game (game : GamePtr) (m : GameState) (r : Rand)
  : bool * GameState * Rand :=
  match game with
  | NULL => (false, m, r)
  | PTR =>
      if game_over m then (false, m, r)
      else
        let new_head :=
          get_new_position (position (snake m !!! O)) (direction m)
                           (width m) (height m) in
        if check_self_collision game new_head m
        then (true, set_game_over m true, r)
        else
          let eaten_food := is_food_position game new_head m in
          let '(m3, r') :=
            if eaten_food then
              let m1 := if snake_length m <? MAX_SNAKE_LENGTH
                        then set_snake_length m (snake_length m + 1) else m in
              let m2 :=
                set_score m1 (wrap_int (score m1 + value (food m1))) in
              spawn_food game m2 r
            else (m, r) in
          let m4 := set_snake m3 (shift_body (snake m3)
                                             (Z.to_nat (snake_length m3 - 1))) in
          let m5 := set_snake m4 (<[O := mkSegment new_head]> (snake m4)) in
          (true, m5, r')
  end.

(** [d1 == d2] on the enumeration. *)
Definition dir_eqb (d1 d2 : Direction) : bool :=
  match d1, d2 with
  | UP, UP | RIGHT, RIGHT | DOWN, DOWN | LEFT, LEFT => true
  | _, _ => false
  end.

Definition set_direction (game : GamePtr) (new_direction : Direction)
  (m : GameState) : GameState :=
  match game with
  | NULL => m
  | PTR =>
      if (dir_eqb (direction m) UP && dir_eqb new_direction DOWN)
         || (dir_eqb (direction m) DOWN && dir_eqb new_direction UP)
         || (dir_eqb (direction m) LEFT && dir_eqb new_direction RIGHT)
         || (dir_eqb (direction m) RIGHT && dir_eqb new_direction LEFT)
      then m
      else set_dir m new_direction
  end.

(** ** Notions the properties are phrased with *)

(** The cell of segment [i]. *)
Definition cell (m : GameState) (i : nat) : Point := position (snake m !!! i).

(** [p] is the cell of one of the segments [0 .. snake_length-1]. *)
Definition occupied (m : GameState) (p : Point) : Prop :=
  exists i : nat, Z.of_nat i < snake_length m /\ cell m i = p.

Definition in_grid (m : GameState) (p : Point) : Prop :=
  0 <= px p < width m /\ 0 <= py p < height m.

(** No two of the segments [0 .. snake_length-1] share a cell. *)
Definition distinct_segments (m : GameState) : Prop :=
  forall i j : nat, (i < j)%nat -> Z.of_nat j < snake_length m ->
                    cell m i <> cell m j.

(** The array has its [MAX_SNAKE_LENGTH] slots. *)
Definition array_ok (m : GameState) : Prop :=
  Z.of_nat (length (snake m)) = MAX_SNAKE_LENGTH.

(** The 180-degree turn of a heading. *)
Definition reverse (d : Direction) : Direction :=
  match d with UP => DOWN | DOWN => UP | LEFT => RIGHT | RIGHT => LEFT end.

(** The cell one step from the head in the current direction, as [update_game]
    computes it. *)
Definition next_head (m : GameState) : Point :=
  get_new_position (cell m 0) (direction m) (width m) (height m).

(** Candidate [k] of the random phase of [spawn_food]: the draws [2k] and
    [2k+1] of the stream, reduced by the width and the height. *)
Definition candidate (m : GameState) (r : Rand) (k : nat) : Point :=
  mkPoint (Z.rem (Z.of_N (r (2 * k)%nat)) (width m))
          (Z.rem (Z.of_N (r (2 * k + 1)%nat)) (height m)).

(** [q] comes before [p] when the grid is read row by row from (0,0). *)
Definition row_major_before (q p : Point) : Prop :=
  py q < py p \/ (py q = py p /\ px q < px p).

(** ** Reachable states and runs *)

(** The states a host can bring the object into through the interface; the
    dimensions passed to [initialize_game] are [int]s. *)
Inductive reachable : GameState -> Prop :=
| reach_initialize m w h r :
    array_ok m -> is_int w -> is_int h ->
    reachable (initialize_game PTR w h m r).1
| reach_reset m r : reachable m -> reachable (reset_game PTR m r).1
| reach_set_direction m d : reachable m -> reachable (set_direction PTR d m)
| reach_spawn_food m r : reachable m -> reachable (spawn_food PTR m r).1
| reach_update m r : reachable m -> reachable (update_game PTR m r).1.2.

(** [n] ticks in a row. *)
Fixpoint run_updates (n : nat) (m : GameState) (r : Rand) : GameState * Rand :=
  match n with
  | O => (m, r)
  | S n' => let '(_, m', r') := update_game PTR m r in run_updates n' m' r'
  end.

(** What holds of the object in every reachable state: the array is whole,
    the length is within its capacity, the segments are pairwise apart on a
    grid of at least two columns and two rows, and the dimensions and the
    coordinates of the head are [int]s. *)
Definition game_inv (m : GameState) : Prop :=
  array_ok m /\ snake_length m <= MAX_SNAKE_LENGTH /\
  (2 <= width m -> 2 <= height m -> distinct_segments m) /\
  is_int (width m) /\ is_int (height m) /\
  is_int (px (cell m 0)) /\ is_int (py (cell m 0)).

(** 2^30, the largest width (height) for which [x - 1 + width] stays within
    [INT_MAX] for every column [x] of the grid. *)
Definition SAFE_DIM : Z := 1073741824.

(** What holds of the segments in every reachable state: the length never
    drops below its initial value and, for dimensions up to [SAFE_DIM], the
    rows of the segments are rows of the grid, the head is a cell of the
    grid, and on a grid of at least four columns so is every segment. *)
Definition segments_inv (m : GameState) : Prop :=
  INITIAL_SNAKE_LENGTH <= snake_length m /\
  (1 <= height m <= SAFE_DIM ->
   forall i : nat, Z.of_nat i < snake_length m ->
                   0 <= py (cell m i) < height m) /\
  (1 <= width m <= SAFE_DIM -> 1 <= height m <= SAFE_DIM ->
   in_grid m (cell m 0)) /\
  (4 <= width m <= SAFE_DIM -> 1 <= height m <= SAFE_DIM ->
   forall i : nat, Z.of_nat i < snake_length m -> in_grid m (cell m i)).

(** The step of the head stays within [int]: moving left (up), the sum
    [x - 1 + width] ([y - 1 + height]) does not exceed [INT_MAX]. *)
Definition step_fits (m : GameState) : Prop :=
  match direction m with
  | LEFT => px (cell m 0) - 1 + width m <= INT_MAX
  | UP => py (cell m 0) - 1 + height m <= INT_MAX
  | RIGHT | DOWN => True
  end.

(** The stream [r] after [k] draws. *)
Definition after_draws (k : nat) (r : Rand) : Rand := fun n => r (k + n)%nat.

(** ** Concrete states and draws for the examples *)

(** A zeroed object, and the stream that yields the listed values and then
    zeros. *)
Definition blank : GameState :=
  mkGame 0 0 (replicate 100 (mkSegment (mkPoint 0 0))) 0 UP
         (mkFood (mkPoint 0 0) 0) 0 false.

Definition draws (l : list N) : Rand := fun n => nth n l 0%N.

(** A head on the right edge of a 10 x 10 grid, heading right. *)
Definition on_right_edge : GameState :=
  mkGame 10 10 (<[O := mkSegment (mkPoint 9 4)]> (snake blank)) 1 RIGHT
         (mkFood (mkPoint 0 0) 10) 0 false.

(** A coiled snake on a 5 x 5 grid: heading right, the head at (1,1) is about
    to enter (2,1), the cell of its own tail. *)
Definition coiled : GameState :=
  mkGame 5 5
         ([mkSegment (mkPoint 1 1); mkSegment (mkPoint 1 2);
           mkSegment (mkPoint 2 2); mkSegment (mkPoint 2 1)]
            ++ replicate 96 (mkSegment (mkPoint 0 0)))
         4 RIGHT (mkFood (mkPoint 4 4) 10) 0 false.

(** A snake of full length stretched along row 2 of a 200 x 5 grid, the head
    at (100,2) heading right, the food in the cell in front of it. *)
Definition full_length : GameState :=
  mkGame 200 5
         (map (fun i : nat => mkSegment (mkPoint (100 - Z.of_nat i) 2))
              (seq 0 100))
         100 RIGHT (mkFood (mkPoint 101 2) 10) 0 false.

(** A snake lying on the first three cells of row 0 of a 5 x 5 grid. *)
Definition in_the_corner : GameState :=
  mkGame 5 5
         ([mkSegment (mkPoint 0 0); mkSegment (mkPoint 1 0);
           mkSegment (mkPoint 2 0)]
            ++ replicate 97 (mkSegment (mkPoint 0 0)))
         3 RIGHT (mkFood (mkPoint 4 4) 7) 0 false.

(** A snake that covers the whole of a 1 x 3 grid. *)
Definition packed : GameState :=
  mkGame 1 3
         ([mkSegment (mkPoint 0 0); mkSegment (mkPoint 0 1);
           mkSegment (mkPoint 0 2)]
            ++ replicate 97 (mkSegment (mkPoint 0 0)))
         3 DOWN (mkFood (mkPoint 0 1) 7) 0 false.

(** A fresh 10 x 10 game whose first food lies right in front of the head. *)
Definition fresh_game : GameState :=
  (initialize_game PTR 10 10 blank (draws [6; 5]%N)).1.

(** A fresh game on a grid one cell wide and three cells high. *)
Definition narrow_game : GameState :=
  (initialize_game PTR 1 3 blank (draws [0; 0]%N)).1.

(** A game on a grid [INT_MAX] cells wide after one tick upwards, turned
    left: the head is at column 1073741823. *)
Definition wide_game : GameState :=
  set_direction PTR LEFT
    (update_game PTR
       (set_direction PTR UP
          (initialize_game PTR INT_MAX 10 blank (draws [7; 7]%N)).1)
       (draws [])).1.2.


(** A fresh game on a grid five cells wide and one cell high, turned upwards. *)
Definition flat_game : GameState :=
  set_direction PTR UP (initialize_game PTR 5 1 blank (draws [4; 0]%N)).1.

Arguments random_attempts : simpl never.
Arguments scan_grid : simpl never.
Arguments shift_body : simpl never.
Arguments place_snake : simpl never.
Arguments update_game : simpl never.
Arguments spawn_food : simpl never.
Arguments initialize_game : simpl never.

(** ** The worked examples of the specification *)

Example initialize_10_10 :
  let m := (initialize_game PTR 10 10 blank (draws [6; 5]%N)).1 in
  cell m 0 = mkPoint 5 5 /\ cell m 1 = mkPoint 4 5 /\ cell m 2 = mkPoint 3 5 /\
  snake_length m = 3 /\ direction m = RIGHT /\ score m = 0 /\
  game_over m = false /\ food m = mkFood (mkPoint 6 5) 10.
Proof. vm_compute. repeat split; reflexivity. Qed.

Example turn_up_and_tick :
  let m0 := (initialize_game PTR 10 10 blank (draws [7; 7]%N)).1 in
  let '(changed, m, _) := update_game PTR (set_direction PTR UP m0) (draws []) in
  changed = true /\ game_over m = false /\
  cell m 0 = mkPoint 5 4 /\ cell m 1 = mkPoint 5 5 /\ cell m 2 = mkPoint 4 5.
Proof. vm_compute. repeat split; reflexivity. Qed.

(** ** Cells and the loops over the segments *)

Lemma same_cell_eq (a b : Point) : same_cell a b = true <-> a = b.
Proof.
  unfold same_cell. destruct a as [ax ay], b as [bx b_y]; simpl.
  rewrite andb_true_iff, !Z.eqb_eq. split.
  - intros [-> ->]. reflexivity.
  - intros H. injection H as -> ->. split; reflexivity.
Qed.

Lemma same_cell_neq (a b : Point) : same_cell a b = false <-> a <> b.
Proof.
  rewrite <- not_true_iff_false, same_cell_eq. reflexivity.
Qed.

Lemma hits_segment_true (s : list SnakeSegment) (p : Point) (n : nat) :
  forall i : nat,
    hits_segment s p i n = true <->
    exists k : nat, (i <= k < i + n)%nat /\ position (s !!! k) = p.
Proof.
  induction n as [|n IH]; intros i; simpl.
  - split; [discriminate | intros (k & Hk & _); lia].
  - destruct (same_cell (position (s !!! i)) p) eqn:E.
    + apply same_cell_eq in E. split; [intros _ | reflexivity].
      exists i. split; [lia | exact E].
    + apply same_cell_neq in E. rewrite IH. split.
      * intros (k & Hk & Hp). exists k. split; [lia | exact Hp].
      * intros (k & Hk & Hp). exists k. split; [| exact Hp].
        assert (k <> i) by (intros ->; contradiction). lia.
Qed.

Lemma hits_segment_false (s : list SnakeSegment) (p : Point) (i n : nat) :
  hits_segment s p i n = false <->
  forall k : nat, (i <= k < i + n)%nat -> position (s !!! k) <> p.
Proof.
  rewrite <- not_true_iff_false, hits_segment_true. split.
  - intros H k Hk Hp. apply H. exists k. auto.
  - intros H (k & Hk & Hp). exact (H k Hk Hp).
Qed.

Lemma on_snake_true (m : GameState) (p : Point) :
  on_snake m p = true <-> occupied m p.
Proof.
  unfold on_snake, occupied, cell. rewrite hits_segment_true. split.
  - intros (k & Hk & Hp). exists k. split; [lia | exact Hp].
  - intros (k & Hk & Hp). exists k. split; [lia | exact Hp].
Qed.

Lemma on_snake_false (m : GameState) (p : Point) :
  on_snake m p = false <-> ~ occupied m p.
Proof.
  rewrite <- not_true_iff_false, on_snake_true. reflexivity.
Qed.

Lemma check_self_collision_true (m : GameState) (p : Point) :
  check_self_collision PTR p m = true <->
  exists i : nat, (1 <= i)%nat /\ Z.of_nat i < snake_length m /\ cell m i = p.
Proof.
  unfold check_self_collision, cell. rewrite hits_segment_true. split.
  - intros (k & Hk & Hp). exists k. repeat split; [lia | lia | exact Hp].
  - intros (k & H1 & Hk & Hp). exists k. split; [lia | exact Hp].
Qed.

Lemma check_self_collision_false (m : GameState) (p : Point) :
  check_self_collision PTR p m = false <->
  forall i : nat, (1 <= i)%nat -> Z.of_nat i < snake_length m -> cell m i <> p.
Proof.
  rewrite <- not_true_iff_false, check_self_collision_true. split.
  - intros H i H1 Hi Hp. apply H. exists i. auto.
  - intros H (i & H1 & Hi & Hp). exact (H i H1 Hi Hp).
Qed.

(** ** Arithmetic on [int] *)

Lemma wrap_int_range (z : Z) : is_int (wrap_int z).
Proof.
  unfold is_int, wrap_int, INT_MIN, INT_MAX.
  pose proof (Z.mod_pos_bound (z + 2147483648) 4294967296 ltac:(lia)). lia.
Qed.

Lemma wrap_int_small (z : Z) : is_int z -> wrap_int z = z.
Proof.
  unfold is_int, wrap_int, INT_MIN, INT_MAX. intros H.
  rewrite Z.mod_small by lia. lia.
Qed.

Lemma wrap_int_over (z : Z) :
  INT_MAX < z <= INT_MAX + 4294967296 -> wrap_int z = z - 4294967296.
Proof.
  unfold wrap_int, INT_MAX. intros H.
  replace (z + 2147483648) with (z - 2147483648 + 1 * 4294967296) by lia.
  rewrite Z.mod_add by lia. rewrite Z.mod_small by lia. lia.
Qed.

Lemma wrap_int_add (z b : Z) : wrap_int (wrap_int z + b) = wrap_int (z + b).
Proof.
  unfold wrap_int.
  replace ((z + 2147483648) mod 4294967296 - 2147483648 + b + 2147483648)
    with ((z + 2147483648) mod 4294967296 + b) by lia.
  rewrite Zplus_mod_idemp_l. f_equal. f_equal. lia.
Qed.

Lemma rem_zero (a : Z) : Z.rem a 0 = a.
Proof. destruct a; reflexivity. Qed.

Lemma rem_is_int (a b : Z) : is_int a -> is_int b -> is_int (Z.rem a b).
Proof.
  intros Ha Hb. destruct (Z.eq_dec b 0) as [->|Hb0].
  - rewrite rem_zero. exact Ha.
  - pose proof (Z.rem_bound_abs a b Hb0).
    unfold is_int, INT_MIN, INT_MAX in *. lia.
Qed.

Lemma half_is_int (w : Z) : is_int w -> is_int (Z.quot w 2).
Proof.
  unfold is_int, INT_MIN, INT_MAX. intros H.
  pose proof (Z.quot_rem' w 2) as Q.
  destruct (Z_le_gt_dec 0 w) as [Hpos|Hneg].
  - pose proof (Z.rem_bound_pos w 2 Hpos ltac:(lia)). lia.
  - pose proof (Z.rem_nonpos w 2 ltac:(lia) ltac:(lia)).
    pose proof (Z.rem_bound_abs w 2 ltac:(lia)). lia.
Qed.

Lemma rem_le_max (a b : Z) : 0 < b -> Z.rem a b <= Z.max a 0.
Proof.
  intros Hb. destruct (Z_le_gt_dec 0 a) as [Hpos|Hneg].
  - pose proof (Z.rem_le a b Hpos Hb). lia.
  - pose proof (Z.rem_nonpos a b ltac:(lia) ltac:(lia)). lia.
Qed.

(** The step of [get_new_position] for operands that are [int]s. *)
Lemma step_back (a b : Z) :
  is_int a -> 1 <= b -> is_int b ->
  wrap_int (wrap_int (a - 1) + b)
  = if a - 1 + b <=? INT_MAX then a - 1 + b else a - 1 + b - 4294967296.
Proof.
  unfold is_int, INT_MIN. intros Ha Hb1 Hb. rewrite wrap_int_add.
  destruct (Z.leb_spec (a - 1 + b) INT_MAX) as [Hle|Hgt].
  - apply wrap_int_small. unfold is_int, INT_MIN, INT_MAX in *. lia.
  - apply wrap_int_over. unfold INT_MAX in *. lia.
Qed.

Lemma step_forth (a : Z) :
  is_int a ->
  wrap_int (a + 1) = if a =? INT_MAX then INT_MIN else a + 1.
Proof.
  unfold is_int, INT_MIN. intros Ha.
  destruct (Z.eqb_spec a INT_MAX) as [->|Hne].
  - reflexivity.
  - apply wrap_int_small. unfold is_int, INT_MIN, INT_MAX in *. lia.
Qed.

(** ** Null pointers *)

(** C4, as the code has it: called with a null pointer, every operation leaves
    the object untouched and returns its default: [false] for [update_game],
    [check_self_collision] and [is_food_position], [0] for [get_score], the
    sentinel [(-1,-1)] for [get_snake_segment] and [get_food_position], and
    [true] for [is_game_over]. *)
Theorem null_pointer_defaults (m : GameState) (r : Rand) :
  update_game NULL m r = (false, m, r) /\
  (forall w h, initialize_game NULL w h m r = (m, r)) /\
  reset_game NULL m r = (m, r) /\
  spawn_food NULL m r = (m, r) /\
  (forall d, set_direction NULL d m = m) /\
  (forall p, check_self_collision NULL p m = false) /\
  (forall p, is_food_position NULL p m = false) /\
  (forall i, get_snake_segment NULL i m = mkPoint (-1) (-1)) /\
  get_food_position NULL m = mkPoint (-1) (-1) /\
  get_score NULL m = 0 /\
  is_game_over NULL m = true.
Proof. repeat split. Qed.

(** C4, as stated, fails: [is_game_over] answers [true], not [false], for a
    null pointer. *)
Lemma is_game_over_null_is_true : is_game_over NULL blank <> false.
Proof. discriminate. Qed.

(** ** Direction changes *)

Lemma reversal_test (cur new : Direction) :
  (dir_eqb cur UP && dir_eqb new DOWN)
  || (dir_eqb cur DOWN && dir_eqb new UP)
  || (dir_eqb cur LEFT && dir_eqb new RIGHT)
  || (dir_eqb cur RIGHT && dir_eqb new LEFT) = true <-> new = reverse cur.
Proof. destruct cur, new; simpl; split; congruence. Qed.

(** C8: [set_direction] rejects the request, changing nothing, when the new
    direction is the reverse of the current one, and otherwise stores the new
    direction and nothing else; the request is refused exactly for a reversal;
    the game-over flag plays no part. *)
Theorem set_direction_rejects_reversal (m : GameState) (d : Direction) :
  (d = reverse (direction m) -> set_direction PTR d m = m) /\
  (d <> reverse (direction m) -> set_direction PTR d m = set_dir m d) /\
  (direction (set_direction PTR d m) <> d <-> d = reverse (direction m)) /\
  (forall b : bool,
      set_direction PTR d (set_game_over m b)
      = set_game_over (set_direction PTR d m) b).
Proof.
  pose proof (reversal_test (direction m) d) as T.
  unfold set_direction.
  split; [| split; [| split]].
  - intros H. apply T in H. rewrite H. reflexivity.
  - intros H. rewrite <- T in H. apply not_true_is_false in H. rewrite H.
    reflexivity.
  - destruct (_ || _) eqn:E.
    + assert (Hd : d = reverse (direction m)) by (apply T; reflexivity).
      split; [intros _; exact Hd | intros _].
      rewrite Hd. destruct (direction m); discriminate.
    + simpl. split; [congruence |].
      intros Hd. apply T in Hd. discriminate.
  - intros b. simpl. destruct (_ || _); reflexivity.
Qed.

Lemma set_direction_rejects_reversal_witness :
  set_direction PTR LEFT (set_dir blank RIGHT) = set_dir blank RIGHT /\
  set_direction PTR UP (set_dir blank RIGHT) = set_dir (set_dir blank RIGHT) UP.
Proof.
  split.
  - apply (proj1 (set_direction_rejects_reversal (set_dir blank RIGHT) LEFT)).
    reflexivity.
  - apply (proj1 (proj2
             (set_direction_rejects_reversal (set_dir blank RIGHT) UP))).
    discriminate.
Defined.

(** ** Ticks after the game has ended *)

Lemma spawn_food_frame (game : GamePtr) (m : GameState) (r : Rand) :
  let m' := (spawn_food game m r).1 in
  width m' = width m /\ height m' = height m /\ snake m' = snake m /\
  snake_length m' = snake_length m /\ direction m' = direction m /\
  score m' = score m /\ game_over m' = game_over m.
Proof.
  unfold spawn_food. destruct game; simpl; [repeat split |].
  destruct (random_attempts m MAX_ATTEMPTS r) as [[p|] r']; simpl;
    [repeat split |].
  destruct (scan_grid m); simpl; repeat split.
Qed.

Lemma initialize_game_fields (w h : Z) (m : GameState) (r : Rand) :
  let m' := (initialize_game PTR w h m r).1 in
  width m' = w /\ height m' = h /\ snake_length m' = INITIAL_SNAKE_LENGTH /\
  direction m' = RIGHT /\ score m' = 0 /\ game_over m' = false /\
  snake m' = place_snake (snake m) (Z.quot w 2) (Z.quot h 2) 0 3.
Proof.
  unfold initialize_game.
  match goal with |- context [spawn_food PTR ?a ?b] =>
    destruct (spawn_food_frame PTR a b) as (H1 & H2 & H3 & H4 & H5 & H6 & H7)
  end.
  cbv zeta. rewrite H1, H2, H3, H4, H5, H6, H7. repeat split.
Qed.

(** C9: once [game_over] is set, a tick returns [false] and changes nothing,
    whatever the number of ticks; of the operations only [reset_game] and
    [initialize_game] clear the flag. *)
Theorem update_game_after_game_over (m : GameState) :
  game_over m = true ->
  (forall r, update_game PTR m r = (false, m, r)) /\
  (forall n r, run_updates n m r = (m, r)) /\
  (forall d, game_over (set_direction PTR d m) = true) /\
  (forall r, game_over (spawn_food PTR m r).1 = true) /\
  (forall r, game_over (reset_game PTR m r).1 = false) /\
  (forall w h r, game_over (initialize_game PTR w h m r).1 = false).
Proof.
  intros Hover.
  assert (Hup : forall r, update_game PTR m r = (false, m, r)).
  { intros r. unfold update_game. rewrite Hover. reflexivity. }
  repeat split.
  - exact Hup.
  - intros n. induction n as [|n IH]; intros r; simpl.
    + reflexivity.
    + rewrite Hup. apply IH.
  - intros d. unfold set_direction. destruct (_ || _); simpl; exact Hover.
  - intros r. destruct (spawn_food_frame PTR m r) as (_ & _ & _ & _ & _ & _ & H).
    simpl in H. rewrite H. exact Hover.
  - intros r. unfold reset_game. apply initialize_game_fields.
  - intros w h r. apply initialize_game_fields.
Qed.

Lemma update_game_after_game_over_witness :
  update_game PTR (set_game_over blank true) (draws [])
  = (false, set_game_over blank true, draws []).
Proof.
  apply (proj1 (update_game_after_game_over (set_game_over blank true)
                                            eq_refl)).
Defined.

(** ** The new head *)

(** C7, for steps that stay within [int]: on a grid of at least one column
    and one row, with the head inside the grid and, when moving left (up),
    [x - 1 + width] ([y - 1 + height]) not above [INT_MAX], the new head is
    one cell further in the direction of motion and re-enters on the opposite
    edge when it leaves the grid; the other coordinate is kept. *)
Theorem get_new_position_wraps (m : GameState) :
  1 <= width m <= INT_MAX -> 1 <= height m <= INT_MAX ->
  in_grid m (cell m 0) -> step_fits m ->
  next_head m =
    match direction m with
    | UP => mkPoint (px (cell m 0))
                    (if py (cell m 0) =? 0 then height m - 1
                     else py (cell m 0) - 1)
    | RIGHT => mkPoint (if px (cell m 0) =? width m - 1 then 0
                        else px (cell m 0) + 1)
                       (py (cell m 0))
    | DOWN => mkPoint (px (cell m 0))
                      (if py (cell m 0) =? height m - 1 then 0
                       else py (cell m 0) + 1)
    | LEFT => mkPoint (if px (cell m 0) =? 0 then width m - 1
                       else px (cell m 0) - 1)
                      (py (cell m 0))
    end.
Proof.
  intros HW HH [Hx Hy] Hfit. unfold next_head, get_new_position.
  unfold step_fits in Hfit.
  assert (Hix : is_int (px (cell m 0)))
    by (unfold is_int, INT_MIN, INT_MAX in *; lia).
  assert (Hiy : is_int (py (cell m 0)))
    by (unfold is_int, INT_MIN, INT_MAX in *; lia).
  assert (HiW : is_int (width m))
    by (unfold is_int, INT_MIN, INT_MAX in *; lia).
  assert (HiH : is_int (height m))
    by (unfold is_int, INT_MIN, INT_MAX in *; lia).
  destruct (direction m); f_equal.
  - rewrite step_back by (assumption || lia).
    destruct (Z.leb_spec (py (cell m 0) - 1 + height m) INT_MAX); [| lia].
    destruct (Z.eqb_spec (py (cell m 0)) 0) as [E|E].
    + rewrite E. replace (0 - 1 + height m) with (height m - 1) by lia.
      apply Z.rem_small. lia.
    + replace (py (cell m 0) - 1 + height m)
        with (py (cell m 0) - 1 + 1 * height m) by lia.
      rewrite Z.rem_mod_nonneg, Z.mod_add by lia. apply Z.mod_small. lia.
  - rewrite step_forth by assumption.
    destruct (Z.eqb_spec (px (cell m 0)) INT_MAX); [lia |].
    destruct (Z.eqb_spec (px (cell m 0)) (width m - 1)) as [E|E].
    + rewrite E. replace (width m - 1 + 1) with (width m) by lia.
      apply Z.rem_same. lia.
    + apply Z.rem_small. lia.
  - rewrite step_forth by assumption.
    destruct (Z.eqb_spec (py (cell m 0)) INT_MAX); [lia |].
    destruct (Z.eqb_spec (py (cell m 0)) (height m - 1)) as [E|E].
    + rewrite E. replace (height m - 1 + 1) with (height m) by lia.
      apply Z.rem_same. lia.
    + apply Z.rem_small. lia.
  - rewrite step_back by (assumption || lia).
    destruct (Z.leb_spec (px (cell m 0) - 1 + width m) INT_MAX); [| lia].
    destruct (Z.eqb_spec (px (cell m 0)) 0) as [E|E].
    + rewrite E. replace (0 - 1 + width m) with (width m - 1) by lia.
      apply Z.rem_small. lia.
    + replace (px (cell m 0) - 1 + width m)
        with (px (cell m 0) - 1 + 1 * width m) by lia.
      rewrite Z.rem_mod_nonneg, Z.mod_add by lia. apply Z.mod_small. lia.
Qed.

Lemma get_new_position_wraps_witness :
  next_head on_right_edge = mkPoint 0 4.
Proof.
  apply (get_new_position_wraps on_right_edge); vm_compute;
    repeat split; discriminate.
Defined.

(** Dimensions up to [SAFE_DIM] keep every step of a head in the grid within
    [int]. *)
Lemma safe_dim_step_fits (m : GameState) :
  width m <= SAFE_DIM -> height m <= SAFE_DIM -> in_grid m (cell m 0) ->
  step_fits m.
Proof.
  intros HW HH [Hx Hy]. unfold step_fits, SAFE_DIM, INT_MAX in *.
  destruct (direction m); (exact I || lia).
Qed.

(** C7, as stated for every width and height of at least 1, fails: on a grid
    [INT_MAX] cells wide a head at column 1073741823 moving left is taken to
    column -1073741827, not to column 1073741822, because [x - 1 + width]
    exceeds [INT_MAX]. *)
Lemma get_new_position_overflows :
  reachable wide_game /\
  1 <= width wide_game /\ 1 <= height wide_game /\
  in_grid wide_game (cell wide_game 0) /\
  direction wide_game = LEFT /\
  cell wide_game 0 = mkPoint 1073741823 4 /\
  next_head wide_game = mkPoint (-1073741827) 4 /\
  next_head wide_game
  <> mkPoint (px (cell wide_game 0) - 1) (py (cell wide_game 0)).
Proof.
  split.
  - unfold wide_game.
    apply reach_set_direction, reach_update, reach_set_direction,
      reach_initialize; [reflexivity | | ]; vm_compute; split; discriminate.
  - vm_compute. repeat split; discriminate.
Qed.

(** ** Self collision *)

(** C2: when the new head falls on the cell of a segment [1 .. snake_length-1]
    of the snake as it is before the move, the tail included, the tick sets
    [game_over], returns [true] and changes nothing else. *)
Theorem update_game_self_collision (m : GameState) (r : Rand) (i : nat) :
  game_over m = false ->
  (1 <= i)%nat -> Z.of_nat i < snake_length m ->
  cell m i = next_head m ->
  exists m',
    update_game PTR m r = (true, m', r) /\
    game_over m' = true /\
    snake m' = snake m /\ snake_length m' = snake_length m /\
    score m' = score m /\ direction m' = direction m /\ food m' = food m /\
    width m' = width m /\ height m' = height m.
Proof.
  intros Hlive H1 Hi Hcell.
  assert (Hc : check_self_collision PTR (next_head m) m = true).
  { apply check_self_collision_true. exists i. auto. }
  exists (set_game_over m true). unfold update_game. rewrite Hlive.
  unfold next_head, cell in Hc. rewrite Hc. repeat split.
Qed.

Lemma update_game_self_collision_witness :
  exists m',
    update_game PTR coiled (draws []) = (true, m', draws []) /\
    game_over m' = true /\
    snake m' = snake coiled /\ snake_length m' = snake_length coiled /\
    score m' = score coiled /\ direction m' = direction coiled /\
    food m' = food coiled /\
    width m' = width coiled /\ height m' = height coiled.
Proof.
  apply (update_game_self_collision coiled (draws []) 3).
  - reflexivity.
  - lia.
  - vm_compute. reflexivity.
  - vm_compute. reflexivity.
Defined.

(** ** The body shift *)

Lemma shift_body_length (n : nat) :
  forall s : list SnakeSegment, length (shift_body s n) = length s.
Proof.
  induction n as [|n IH]; intros s; unfold shift_body; fold shift_body.
  - reflexivity.
  - rewrite IH. apply length_insert.
Qed.

Lemma shift_body_lookup (n : nat) :
  forall (s : list SnakeSegment) (j : nat),
    (n < length s)%nat ->
    position (shift_body s n !!! j)
    = if decide (1 <= j <= n)%nat then position (s !!! (j - 1)%nat)
      else position (s !!! j).
Proof.
  induction n as [|n IH]; intros s j Hn; unfold shift_body; fold shift_body.
  - destruct (decide (1 <= j <= 0)%nat); [lia | reflexivity].
  - rewrite IH by (rewrite length_insert; lia).
    destruct (decide (1 <= j <= n)%nat) as [Hj|Hj].
    + rewrite list_lookup_total_insert_ne by lia.
      destruct (decide (1 <= j <= S n)%nat); [reflexivity | lia].
    + destruct (decide (j = S n)) as [->|Hne].
      * rewrite list_lookup_total_insert_eq by lia.
        destruct (decide (1 <= S n <= S n)%nat); [| lia].
        simpl. rewrite Nat.sub_0_r. reflexivity.
      * rewrite list_lookup_total_insert_ne by lia.
        destruct (decide (1 <= j <= S n)%nat); [lia | reflexivity].
Qed.

(** The segments after the shift and the head assignment. *)
Lemma moved_lookup (s : list SnakeSegment) (n j : nat) (nh : Point) :
  (n < length s)%nat ->
  position (<[O := mkSegment nh]> (shift_body s n) !!! j)
  = if decide (j = O) then nh
    else if decide (j <= n)%nat then position (s !!! (j - 1)%nat)
         else position (s !!! j).
Proof.
  intros Hn. destruct (decide (j = O)) as [->|Hj].
  - rewrite list_lookup_total_insert_eq by (rewrite shift_body_length; lia).
    reflexivity.
  - rewrite list_lookup_total_insert_ne by lia.
    rewrite shift_body_lookup by exact Hn.
    destruct (decide (1 <= j <= n)%nat), (decide (j <= n)%nat);
      (reflexivity || lia).
Qed.

(** ** A tick that moves the snake *)

(** What is in the object between the food test and the body shift when the
    food has been eaten: the length after [snake_length++] under its guard,
    the score after [score += food.value]. *)
Lemma grow_and_score (m : GameState) :
  set_score (if snake_length m <? MAX_SNAKE_LENGTH
             then set_snake_length m (snake_length m + 1) else m)
            (wrap_int
               (score (if snake_length m <? MAX_SNAKE_LENGTH
                       then set_snake_length m (snake_length m + 1) else m)
                + value (food (if snake_length m <? MAX_SNAKE_LENGTH
                               then set_snake_length m (snake_length m + 1)
                               else m))))
  = mkGame (width m) (height m) (snake m)
           (if snake_length m <? MAX_SNAKE_LENGTH then snake_length m + 1
            else snake_length m)
           (direction m) (food m) (wrap_int (score m + value (food m)))
           (game_over m).
Proof. destruct (snake_length m <? MAX_SNAKE_LENGTH); reflexivity. Qed.

Lemma update_game_tick (m : GameState) (r : Rand) :
  game_over m = false ->
  check_self_collision PTR (next_head m) m = false ->
  let eaten := same_cell (food_position (food m)) (next_head m) in
  let len' := if eaten && (snake_length m <? MAX_SNAKE_LENGTH)
              then snake_length m + 1 else snake_length m in
  let fed := mkGame (width m) (height m) (snake m) len' (direction m) (food m)
                    (wrap_int (score m + value (food m))) (game_over m) in
  exists m' r',
    update_game PTR m r = (true, m', r') /\
    width m' = width m /\ height m' = height m /\
    direction m' = direction m /\ game_over m' = false /\
    snake_length m' = len' /\
    snake m' = <[O := mkSegment (next_head m)]>
                 (shift_body (snake m) (Z.to_nat (len' - 1))) /\
    score m' = (if eaten then wrap_int (score m + value (food m))
                else score m) /\
    food m' = (if eaten then food (spawn_food PTR fed r).1 else food m) /\
    r' = (if eaten then (spawn_food PTR fed r).2 else r).
Proof.
  intros Hlive Hfree. cbv zeta.
  unfold update_game. rewrite Hlive.
  unfold next_head, cell in *. rewrite Hfree.
  unfold is_food_position.
  destruct (same_cell (food_position (food m)) _) eqn:Heat; cbn [andb].
  - rewrite grow_and_score.
    match goal with |- context [spawn_food PTR ?a r] =>
      destruct (spawn_food_frame PTR a r) as (H1 & H2 & H3 & H4 & H5 & H6 & H7);
      destruct (spawn_food PTR a r) as [m3 r3] eqn:Hs
    end.
    cbn [fst snd] in *. cbn [width height snake snake_length direction score
                              game_over] in *.
    eexists _, _. split; [reflexivity |].
    cbn [set_snake width height snake snake_length direction score game_over
         food].
    rewrite H1, H2, H3, H4, H5, H6, H7.
    rewrite Hlive in Hs.
    repeat split; auto; try (rewrite Hs; reflexivity).
  - eexists _, _. split; [reflexivity |].
    cbn [set_snake width height snake snake_length direction score game_over
         food].
    repeat split; auto.
Qed.

(** ** Eating *)



(** C10: when the snake eats and is shorter than [MAX_SNAKE_LENGTH], its new
    last segment lies on the cell the tail had before the tick, every earlier
    segment cell moves one index towards the tail, and the head takes the
    new head cell. *)
Theorem update_game_grows_at_tail (m : GameState) (r : Rand) :
  array_ok m ->
  game_over m = false ->
  1 <= snake_length m < MAX_SNAKE_LENGTH ->
  next_head m = food_position (food m) ->
  (forall i : nat, (1 <= i)%nat -> Z.of_nat i < snake_length m ->
                   cell m i <> next_head m) ->
  exists m' r',
    update_game PTR m r = (true, m', r') /\
    game_over m' = false /\
    snake_length m' = snake_length m + 1 /\
    cell m' (Z.to_nat (snake_length m' - 1))
    = cell m (Z.to_nat (snake_length m - 1)) /\
    (forall i : nat, Z.of_nat i < snake_length m -> cell m' (S i) = cell m i) /\
    cell m' 0 = next_head m.
Proof.
  intros Harr Hlive Hlen Hfood Hbody. unfold array_ok in Harr.
  apply check_self_collision_false in Hbody.
  destruct (update_game_tick m r Hlive Hbody)
    as (m' & r' & Hup & _ & _ & _ & Hgo & Hlen' & Hsnake & _).
  assert (Heat : same_cell (food_position (food m)) (next_head m) = true).
  { apply same_cell_eq. symmetry. exact Hfood. }
  rewrite Heat in Hlen', Hsnake. cbn [andb] in Hlen', Hsnake.
  destruct (Z.ltb_spec (snake_length m) MAX_SNAKE_LENGTH) as [_|]; [| lia].
  assert (Hcell : forall j : nat,
             cell m' j = if decide (j = O) then next_head m
                         else if decide (j <= Z.to_nat (snake_length m))%nat
                              then cell m (j - 1) else cell m j).
  { intros j. unfold cell at 1. rewrite Hsnake.
    replace (snake_length m + 1 - 1) with (snake_length m) by lia.
    apply moved_lookup. lia. }
  exists m', r'. split; [exact Hup |]. split; [exact Hgo |].
  split; [exact Hlen' |]. split; [| split].
  - rewrite Hcell, Hlen'.
    destruct (decide (Z.to_nat (snake_length m + 1 - 1) = O)); [lia |].
    destruct (decide (Z.to_nat (snake_length m + 1 - 1)
                      <= Z.to_nat (snake_length m))%nat); [| lia].
    f_equal. lia.
  - intros i Hi. rewrite Hcell.
    destruct (decide (S i = O)); [lia |].
    destruct (decide (S i <= Z.to_nat (snake_length m))%nat); [| lia].
    f_equal. lia.
  - rewrite Hcell. reflexivity.
Qed.

Lemma update_game_grows_at_tail_witness :
  exists m' r',
    update_game PTR fresh_game (draws [0; 0]%N) = (true, m', r') /\
    game_over m' = false /\
    snake_length m' = 4 /\
    cell m' 3 = mkPoint 3 5 /\
    (forall i : nat, Z.of_nat i < 3 -> cell m' (S i) = cell fresh_game i) /\
    cell m' 0 = mkPoint 6 5.
Proof.
  destruct (update_game_grows_at_tail fresh_game (draws [0; 0]%N))
    as (m' & r' & Hup & Hgo & Hlen & Htail & Hshift & Hhead).
  - reflexivity.
  - reflexivity.
  - vm_compute. split; [discriminate | reflexivity].
  - vm_compute. reflexivity.
  - apply check_self_collision_false. vm_compute. reflexivity.
  - exists m', r'. rewrite Hlen in Htail.
    split; [exact Hup |]. split; [exact Hgo |]. split; [exact Hlen |].
    split; [exact Htail |]. split; [exact Hshift | exact Hhead].
Defined.

(** ** Reachable states *)

Lemma place_snake_length (n : nat) :
  forall (s : list SnakeSegment) (sx sy : Z) (i : nat),
    length (place_snake s sx sy i n) = length s.
Proof.
  induction n as [|n IH]; intros s sx sy i; unfold place_snake;
    fold place_snake.
  - reflexivity.
  - rewrite IH. apply length_insert.
Qed.

Lemma place_snake_lookup (n : nat) :
  forall (s : list SnakeSegment) (sx sy : Z) (i j : nat),
    (i + n <= length s)%nat ->
    place_snake s sx sy i n !!! j
    = if decide (i <= j < i + n)%nat
      then mkSegment (mkPoint (sx - Z.of_nat j) sy) else s !!! j.
Proof.
  induction n as [|n IH]; intros s sx sy i j Hn; unfold place_snake;
    fold place_snake.
  - destruct (decide (i <= j < i + 0)%nat); [lia | reflexivity].
  - rewrite IH by (rewrite length_insert; lia).
    destruct (decide (S i <= j < S i + n)%nat) as [Hj|Hj].
    + destruct (decide (i <= j < i + S n)%nat); [reflexivity | lia].
    + destruct (decide (j = i)) as [->|Hne].
      * rewrite list_lookup_total_insert_eq by lia.
        destruct (decide (i <= i < i + S n)%nat); [reflexivity | lia].
      * rewrite list_lookup_total_insert_ne by lia.
        destruct (decide (i <= j < i + S n)%nat); [lia | reflexivity].
Qed.

Lemma forth_moves (a b : Z) :
  is_int a -> is_int b -> 2 <= b -> Z.rem (wrap_int (a + 1)) b <> a.
Proof.
  intros Ha Hb Hb2 E. rewrite step_forth in E by exact Ha.
  destruct (Z.eqb_spec a INT_MAX) as [->|Hne].
  - pose proof (Z.rem_nonpos INT_MIN b ltac:(lia) ltac:(unfold INT_MIN; lia)).
    unfold INT_MAX in *. lia.
  - pose proof (Z.quot_rem' (a + 1) b) as Q. rewrite E in Q.
    assert (Hmul : b * ((a + 1) ÷ b) = 1) by lia.
    destruct (Z_le_gt_dec ((a + 1) ÷ b) 0); nia.
Qed.

Lemma back_moves (a b : Z) :
  is_int a -> is_int b -> 2 <= b ->
  Z.rem (wrap_int (wrap_int (a - 1) + b)) b <> a.
Proof.
  intros Ha Hb Hb2 E. rewrite step_back in E by (assumption || lia).
  destruct (Z.leb_spec (a - 1 + b) INT_MAX) as [Hle|Hgt].
  - pose proof (Z.quot_rem' (a - 1 + b) b) as Q. rewrite E in Q.
    assert (Hmul : b * ((a - 1 + b) ÷ b) = b - 1) by lia.
    destruct (Z_le_gt_dec ((a - 1 + b) ÷ b) 0); nia.
  - unfold is_int, INT_MIN, INT_MAX in *.
    pose proof (Z.rem_nonpos (a - 1 + b - 4294967296) b ltac:(lia)
                             ltac:(lia)).
    lia.
Qed.

(** On a grid of at least two columns and two rows the step never ends on the
    cell it started from, wrap-around included. *)
Lemma get_new_position_moves (p : Point) (d : Direction) (w h : Z) :
  is_int (px p) -> is_int (py p) -> is_int w -> is_int h ->
  2 <= w -> 2 <= h -> get_new_position p d w h <> p.
Proof.
  intros Hx Hy Hiw Hih Hw Hh. destruct p as [a b].
  unfold get_new_position; simpl in *.
  destruct d; intros E; injection E as E.
  - exact (back_moves b h Hy Hih Hh E).
  - exact (forth_moves a w Hx Hiw Hw E).
  - exact (forth_moves b h Hy Hih Hh E).
  - exact (back_moves a w Hx Hiw Hw E).
Qed.

Lemma get_new_position_is_int (p : Point) (d : Direction) (w h : Z) :
  is_int (px p) -> is_int (py p) -> is_int w -> is_int h ->
  is_int (px (get_new_position p d w h)) /\
  is_int (py (get_new_position p d w h)).
Proof.
  intros Hx Hy Hw Hh.
  destruct d; simpl; split; try assumption;
    apply rem_is_int; (assumption || apply wrap_int_range).
Qed.

Lemma initialize_game_inv (w h : Z) (m : GameState) (r : Rand) :
  array_ok m -> is_int w -> is_int h ->
  game_inv (initialize_game PTR w h m r).1.
Proof.
  intros Harr Hiw Hih. unfold array_ok in Harr.
  destruct (initialize_game_fields w h m r)
    as (HW & HH & Hlen & _ & _ & _ & Hsnake).
  cbv zeta in HW, HH, Hlen, Hsnake.
  unfold game_inv, array_ok, distinct_segments, cell.
  rewrite HW, HH, Hlen, Hsnake, place_snake_length.
  unfold MAX_SNAKE_LENGTH in Harr.
  split; [exact Harr |].
  split; [unfold INITIAL_SNAKE_LENGTH, MAX_SNAKE_LENGTH; lia |].
  split; [| split; [exact Hiw |]; split; [exact Hih |]].
  - intros _ _ i j Hij Hj. unfold INITIAL_SNAKE_LENGTH in Hj.
    rewrite !place_snake_lookup by lia.
    destruct (decide (0 <= i < 0 + 3)%nat); [| lia].
    destruct (decide (0 <= j < 0 + 3)%nat); [| lia].
    simpl. intros E. injection E as E. lia.
  - rewrite place_snake_lookup by lia.
    destruct (decide (0 <= 0 < 0 + 3)%nat); [| lia]. simpl.
    rewrite Z.sub_0_r. split; apply half_is_int; assumption.
Qed.

Lemma spawn_food_inv (m : GameState) (r : Rand) :
  game_inv m -> game_inv (spawn_food PTR m r).1.
Proof.
  destruct (spawn_food_frame PTR m r) as (H1 & H2 & H3 & H4 & _).
  cbv zeta in *.
  unfold game_inv, array_ok, distinct_segments, cell.
  rewrite H1, H2, H3, H4. auto.
Qed.

Lemma set_direction_inv (m : GameState) (d : Direction) :
  game_inv m -> game_inv (set_direction PTR d m).
Proof.
  unfold set_direction. destruct (_ || _); auto.
Qed.

Lemma update_game_inv (m : GameState) (r : Rand) :
  game_inv m -> game_inv (update_game PTR m r).1.2.
Proof.
  intros Hinv. pose proof Hinv as (Harr & Hlen & Hdist & Hiw & Hih & Hix & Hiy).
  destruct (game_over m) eqn:Hlive.
  { unfold update_game. rewrite Hlive. exact Hinv. }
  destruct (check_self_collision PTR (next_head m) m) eqn:Hcoll.
  { unfold update_game. rewrite Hlive.
    unfold next_head, cell in Hcoll. rewrite Hcoll. exact Hinv. }
  destruct (update_game_tick m r Hlive Hcoll)
    as (m' & r' & Hup & HW & HH & _ & _ & Hlen' & Hsnake & _).
  rewrite Hup. cbn [fst snd].
  set (len' := if same_cell (food_position (food m)) (next_head m)
                  && (snake_length m <? MAX_SNAKE_LENGTH)
               then snake_length m + 1 else snake_length m) in *.
  assert (Hle : snake_length m <= len' <= snake_length m + 1
                /\ len' <= MAX_SNAKE_LENGTH).
  { subst len'. destruct (same_cell _ _); cbn [andb]; [| lia].
    destruct (Z.ltb_spec (snake_length m) MAX_SNAKE_LENGTH); lia. }
  unfold array_ok in Harr.
  unfold game_inv, array_ok.
  split; [| split; [| split; [| split; [| split]]]].
  - rewrite Hsnake, length_insert, shift_body_length. exact Harr.
  - lia.
  - rewrite HW, HH. intros Hw Hh i j Hij Hj. specialize (Hdist Hw Hh).
    rewrite Hlen' in Hj. unfold cell. rewrite Hsnake.
    rewrite !moved_lookup by lia.
    destruct (decide (j = O)); [lia |].
    destruct (decide (j <= Z.to_nat (len' - 1))%nat); [| lia].
    destruct (decide (i = O)) as [->|Hi].
    + destruct (decide (j = 1%nat)) as [->|Hj1].
      * apply get_new_position_moves; assumption.
      * intros E. symmetry in E. revert E.
        apply (proj1 (check_self_collision_false m (next_head m)) Hcoll); lia.
    + destruct (decide (i <= Z.to_nat (len' - 1))%nat); [| lia].
      apply Hdist; lia.
  - rewrite HW. exact Hiw.
  - rewrite HH. exact Hih.
  - unfold cell. unfold MAX_SNAKE_LENGTH in *.
    rewrite Hsnake, moved_lookup by lia. simpl.
    apply get_new_position_is_int; assumption.
Qed.

Lemma reachable_inv (m : GameState) : reachable m -> game_inv m.
Proof.
  induction 1 as [m w h r Harr Hiw Hih | m r _ IH | m d _ IH | m r _ IH
                 | m r _ IH].
  - apply initialize_game_inv; assumption.
  - unfold reset_game. apply initialize_game_inv; apply IH.
  - apply set_direction_inv. exact IH.
  - apply spawn_food_inv. exact IH.
  - apply update_game_inv. exact IH.
Qed.

(** ** Segments stay apart *)

(** C3, on grids of at least two columns and two rows: after a tick of a
    reachable game that returns [true] and leaves [game_over] unset, no two
    of the segments [0 .. snake_length-1] share a cell. *)
Theorem update_game_keeps_segments_apart
  (m m' : GameState) (r r' : Rand) :
  reachable m ->
  2 <= width m -> 2 <= height m ->
  update_game PTR m r = (true, m', r') ->
  game_over m' = false ->
  forall i j : nat, (i < j)%nat -> Z.of_nat j < snake_length m' ->
                    cell m' i <> cell m' j.
Proof.
  intros Hreach Hw Hh Hup Hlive.
  pose proof (update_game_inv m r (reachable_inv m Hreach))
    as (_ & _ & Hd & _).
  rewrite Hup in Hd. cbn [fst snd] in Hd.
  assert (HWH : width m' = width m /\ height m' = height m).
  { destruct (game_over m) eqn:Hover.
    - unfold update_game in Hup. rewrite Hover in Hup. discriminate.
    - destruct (check_self_collision PTR (next_head m) m) eqn:Hcoll.
      + unfold update_game in Hup. rewrite Hover in Hup.
        unfold next_head, cell in Hcoll. rewrite Hcoll in Hup.
        injection Hup as <- _. discriminate.
      + destruct (update_game_tick m r Hover Hcoll)
          as (m2 & r2 & Hup2 & HW & HH & _).
        rewrite Hup in Hup2. injection Hup2 as -> _. auto. }
  destruct HWH as [HW HH]. apply Hd; lia.
Qed.

Lemma update_game_keeps_segments_apart_witness :
  cell (update_game PTR fresh_game (draws [])).1.2 0
  <> cell (update_game PTR fresh_game (draws [])).1.2 1.
Proof.
  apply (update_game_keeps_segments_apart
           fresh_game (update_game PTR fresh_game (draws [])).1.2
           (draws []) (update_game PTR fresh_game (draws [])).2).
  - unfold fresh_game. apply reach_initialize; [reflexivity | |]; vm_compute; split; discriminate.
  - vm_compute. discriminate.
  - vm_compute. discriminate.
  - vm_compute. reflexivity.
  - vm_compute. reflexivity.
  - lia.
  - vm_compute. reflexivity.
Defined.

(** C3, as stated for grids of at least one column and one row, fails: on a
    grid one cell wide (or, heading up, one cell high) the head steps onto its
    own cell, which the collision test skips, and the tick leaves segments 0
    and 1 on the same cell. *)
Lemma segments_coincide_on_narrow_grid :
  (reachable narrow_game /\
   1 <= width narrow_game /\ 1 <= height narrow_game /\
   exists m' r',
     update_game PTR narrow_game (draws []) = (true, m', r') /\
     game_over m' = false /\ snake_length m' = 3 /\
     cell m' 0 = mkPoint 0 1 /\ cell m' 1 = mkPoint 0 1) /\
  (reachable flat_game /\
   1 <= width flat_game /\ 1 <= height flat_game /\
   exists m' r',
     update_game PTR flat_game (draws []) = (true, m', r') /\
     game_over m' = false /\ snake_length m' = 3 /\
     cell m' 0 = mkPoint 2 0 /\ cell m' 1 = mkPoint 2 0).
Proof.
  split.
  - split; [unfold narrow_game; apply reach_initialize;
            [reflexivity | |]; vm_compute; split; discriminate |].
    split; [vm_compute; discriminate |].
    split; [vm_compute; discriminate |].
    exists (update_game PTR narrow_game (draws [])).1.2,
           (update_game PTR narrow_game (draws [])).2.
    vm_compute. repeat split; reflexivity.
  - split; [unfold flat_game; apply reach_set_direction, reach_initialize;
            [reflexivity | |]; vm_compute; split; discriminate |].
    split; [vm_compute; discriminate |].
    split; [vm_compute; discriminate |].
    exists (update_game PTR flat_game (draws [])).1.2,
           (update_game PTR flat_game (draws [])).2.
    vm_compute. repeat split; reflexivity.
Qed.

(** ** Food and the new head *)

(** C1 at a failing input: a fresh 10 x 10 game has its head at (5,5) heading
    right and its food at (6,5); the tick eats the food, and when the first
    candidate drawn is (6,5) again, free at that moment, the new food is put
    there and the head then moves onto it.  The tick returns [true] without
    ending the game, with the food on the cell of segment 0. *)
Theorem food_respawns_under_new_head :
  reachable fresh_game /\
  exists m' r',
    update_game PTR fresh_game (draws [6; 5]%N) = (true, m', r') /\
    game_over m' = false /\ snake_length m' = 4 /\
    food_position (food m') = mkPoint 6 5 /\ cell m' 0 = mkPoint 6 5.
Proof.
  split; [unfold fresh_game; apply reach_initialize;
          [reflexivity | |]; vm_compute; split; discriminate |].
  exists (update_game PTR fresh_game (draws [6; 5]%N)).1.2,
         (update_game PTR fresh_game (draws [6; 5]%N)).2.
  vm_compute. repeat split; reflexivity.
Qed.

(** ** Spawning food *)

Lemma get_random_grid (w : Z) (r : Rand) :
  get_random 0 (w - 1) r = (Z.rem (Z.of_N (r O)) w, fun n => r (S n)).
Proof.
  unfold get_random, rand.
  replace (w - 1 - 0 + 1) with w by lia. rewrite Z.add_0_l. reflexivity.
Qed.

Lemma candidate_next (m : GameState) (r : Rand) (k : nat) :
  candidate m (fun n => r (S (S n))) k = candidate m r (S k).
Proof.
  unfold candidate.
  replace (2 * S k)%nat with (S (S (2 * k))) by lia.
  replace (S (S (2 * k)) + 1)%nat with (S (S (2 * k + 1))) by lia.
  reflexivity.
Qed.

(** The random phase returns the first candidate that is off the snake, if
    one of the [n] candidates is. *)
Lemma random_attempts_spec (m : GameState) (n : nat) :
  forall r : Rand,
    match (random_attempts m n r).1 with
    | Some p =>
        exists k : nat,
          (k < n)%nat /\ p = candidate m r k /\ ~ occupied m p /\
          forall j : nat, (j < k)%nat -> occupied m (candidate m r j)
    | None => forall k : nat, (k < n)%nat -> occupied m (candidate m r k)
    end.
Proof.
  induction n as [|n IH]; intros r; unfold random_attempts;
    fold random_attempts.
  - simpl. intros k Hk. lia.
  - rewrite get_random_grid. rewrite get_random_grid.
    change (mkPoint (Z.rem (Z.of_N (r O)) (width m))
                    (Z.rem (Z.of_N (r 1%nat)) (height m)))
      with (candidate m r 0).
    destruct (on_snake m (candidate m r 0)) eqn:Hocc.
    + apply on_snake_true in Hocc.
      specialize (IH (fun n => r (S (S n)))).
      destruct (random_attempts m n (fun n => r (S (S n)))) as [[p|] r2];
        cbn [fst] in *.
      * destruct IH as (k & Hk & Hp & Hfree & Hbefore).
        exists (S k). rewrite candidate_next in Hp.
        split; [lia |]. split; [exact Hp |]. split; [exact Hfree |].
        intros [|j] Hj; [exact Hocc |].
        rewrite <- candidate_next. apply Hbefore. lia.
      * intros [|k] Hk; [exact Hocc |].
        rewrite <- candidate_next. apply IH. lia.
    + apply on_snake_false in Hocc. cbn [fst].
      exists O. split; [lia |]. split; [reflexivity |].
      split; [exact Hocc |]. intros j Hj. lia.
Qed.

Lemma scan_row_spec (m : GameState) (cy : Z) (n : nat) :
  forall cx : Z,
    match scan_row m cy cx n with
    | Some p =>
        py p = cy /\ cx <= px p < cx + Z.of_nat n /\ ~ occupied m p /\
        forall x' : Z, cx <= x' < px p -> occupied m (mkPoint x' cy)
    | None =>
        forall x' : Z, cx <= x' < cx + Z.of_nat n -> occupied m (mkPoint x' cy)
    end.
Proof.
  induction n as [|n IH]; intros cx; simpl scan_row.
  - intros x' Hx. lia.
  - destruct (on_snake m (mkPoint cx cy)) eqn:Hocc.
    + apply on_snake_true in Hocc. specialize (IH (cx + 1)).
      destruct (scan_row m cy (cx + 1) n) as [p|].
      * destruct IH as (Hy & Hx & Hfree & Hbefore).
        split; [exact Hy |]. split; [lia |]. split; [exact Hfree |].
        intros x' Hx'. destruct (Z.eq_dec x' cx) as [->|Hne];
          [exact Hocc | apply Hbefore; lia].
      * intros x' Hx'. destruct (Z.eq_dec x' cx) as [->|Hne];
          [exact Hocc | apply IH; lia].
    + apply on_snake_false in Hocc. simpl.
      split; [reflexivity |]. split; [lia |]. split; [exact Hocc |].
      intros x' Hx'. lia.
Qed.

Lemma scan_rows_spec (m : GameState) (n : nat) :
  forall cy : Z,
    match scan_rows m cy n with
    | Some p =>
        cy <= py p < cy + Z.of_nat n /\ 0 <= px p < width m /\
        ~ occupied m p /\
        forall q : Point, 0 <= px q < width m -> cy <= py q ->
                          row_major_before q p -> occupied m q
    | None =>
        forall q : Point, 0 <= px q < width m ->
                          cy <= py q < cy + Z.of_nat n -> occupied m q
    end.
Proof.
  induction n as [|n IH]; intros cy; simpl scan_rows.
  - intros q _ Hq. lia.
  - pose proof (scan_row_spec m cy (Z.to_nat (width m)) 0) as Hrow.
    destruct (scan_row m cy 0 (Z.to_nat (width m))) as [p|].
    + destruct Hrow as (Hy & Hx & Hfree & Hbefore).
      split; [lia |]. split; [lia |]. split; [exact Hfree |].
      intros [qx qy] Hqx Hqy [Hlt | [Heq Hlt]]; simpl in *; [lia |].
      rewrite Heq, Hy. apply Hbefore. lia.
    + specialize (IH (cy + 1)).
      destruct (scan_rows m (cy + 1) n) as [p|].
      * destruct IH as (Hy & Hx & Hfree & Hbefore).
        split; [lia |]. split; [exact Hx |]. split; [exact Hfree |].
        intros [qx qy] Hqx Hqy Hrm; simpl in *.
        destruct (Z.eq_dec qy cy) as [->|Hne];
          [apply Hrow; lia | apply Hbefore; simpl; [lia | lia | exact Hrm]].
      * intros [qx qy] Hqx Hqy; simpl in *.
        destruct (Z.eq_dec qy cy) as [->|Hne];
          [apply Hrow; lia | apply IH; simpl; lia].
Qed.

(** The fallback scan returns the first cell of the grid, row by row, that is
    off the snake, if there is one. *)
Lemma scan_grid_spec (m : GameState) :
  match scan_grid m with
  | Some p =>
      in_grid m p /\ ~ occupied m p /\
      forall q : Point, in_grid m q -> row_major_before q p -> occupied m q
  | None => forall q : Point, in_grid m q -> occupied m q
  end.
Proof.
  unfold scan_grid, in_grid.
  pose proof (scan_rows_spec m (Z.to_nat (height m)) 0) as H.
  destruct (scan_rows m 0 (Z.to_nat (height m))) as [p|].
  - destruct H as (Hy & Hx & Hfree & Hbefore).
    split; [lia |]. split; [exact Hfree |].
    intros q [Hqx Hqy] Hrm. apply Hbefore; [lia | lia | exact Hrm].
  - intros q [Hqx Hqy]. apply H; lia.
Qed.

(** With a non-negative draw and a grid of at least one column and one row,
    every candidate lies in the grid. *)
Lemma candidate_in_grid (m : GameState) (r : Rand) (k : nat) :
  1 <= width m -> 1 <= height m -> in_grid m (candidate m r k).
Proof.
  intros Hw Hh. unfold in_grid, candidate; simpl. split.
  - rewrite Z.rem_mod_nonneg by lia. apply Z.mod_pos_bound. lia.
  - rewrite Z.rem_mod_nonneg by lia. apply Z.mod_pos_bound. lia.
Qed.

(** C6: [spawn_food] puts the food, with value 10, on the first of its 100
    random candidates that is off the snake; when all 100 are on the snake, on
    the first cell of the grid in row-major order from (0,0) that is off the
    snake; on a grid whose every cell is occupied it leaves the object, food
    position and value included, as it was.  So whenever the grid has a free
    cell the food ends up off the snake, and whenever it is placed its value
    is 10 and nothing but the food changes. *)
Theorem spawn_food_places_food (m : GameState) (r : Rand) :
  (forall k : nat,
      (k < 100)%nat ->
      (forall j : nat, (j < k)%nat -> occupied m (candidate m r j)) ->
      ~ occupied m (candidate m r k) ->
      (spawn_food PTR m r).1 = set_food m (mkFood (candidate m r k) 10)) /\
  (forall p : Point,
      (forall k : nat, (k < 100)%nat -> occupied m (candidate m r k)) ->
      in_grid m p -> ~ occupied m p ->
      (forall q : Point, in_grid m q -> row_major_before q p -> occupied m q) ->
      (spawn_food PTR m r).1 = set_food m (mkFood p 10)) /\
  (1 <= width m -> 1 <= height m ->
   (forall p : Point, in_grid m p -> occupied m p) ->
   (spawn_food PTR m r).1 = m) /\
  ((exists p : Point, in_grid m p /\ ~ occupied m p) ->
   ~ occupied m (food_position (food (spawn_food PTR m r).1)) /\
   value (food (spawn_food PTR m r).1) = 10) /\
  ((spawn_food PTR m r).1 = m \/
   exists p : Point,
     ~ occupied m p /\ (spawn_food PTR m r).1 = set_food m (mkFood p 10)).
Proof.
  pose proof (random_attempts_spec m MAX_ATTEMPTS r) as Hrand.
  pose proof (scan_grid_spec m) as Hscan.
  unfold spawn_food.
  destruct (random_attempts m MAX_ATTEMPTS r) as [[c|] r'] eqn:Hra;
    cbn [fst] in *.
  - (* a candidate was accepted *)
    destruct Hrand as (k0 & Hk0 & Hc & Hfree & Hbefore).
    unfold MAX_ATTEMPTS in Hk0.
    split; [| split; [| split; [| split]]].
    + intros k Hk Hocc Hk_free.
      destruct (Nat.lt_trichotomy k k0) as [Hlt | [-> | Hgt]].
      * exfalso. apply Hk_free. apply Hbefore. exact Hlt.
      * rewrite Hc. reflexivity.
      * exfalso. apply Hfree. rewrite Hc. apply Hocc. exact Hgt.
    + intros p Hall _ _ _. exfalso. apply Hfree. rewrite Hc. apply Hall.
      exact Hk0.
    + intros Hw Hh Hfull. exfalso. apply Hfree. apply Hfull. rewrite Hc.
      apply candidate_in_grid; assumption.
    + intros _. simpl. split; [exact Hfree | reflexivity].
    + right. exists c. split; [exact Hfree | reflexivity].
  - (* all candidates were on the snake *)
    unfold MAX_ATTEMPTS in Hrand.
    destruct (scan_grid m) as [p0|]; cbn [fst].
    + destruct Hscan as (Hgrid & Hfree & Hfirst).
      split; [| split; [| split; [| split]]].
      * intros k Hk _ Hk_free. exfalso. apply Hk_free. apply Hrand. exact Hk.
      * intros p _ Hp_grid Hp_free Hp_first.
        assert (Hpp : p = p0).
        { destruct p as [a b], p0 as [a0 b0].
          assert (Hab : ~ row_major_before (mkPoint a b) (mkPoint a0 b0)).
          { intros Hb. apply Hp_free. apply Hfirst; assumption. }
          assert (Hba : ~ row_major_before (mkPoint a0 b0) (mkPoint a b)).
          { intros Hb. apply Hfree. apply Hp_first; assumption. }
          unfold row_major_before in Hab, Hba. simpl in Hab, Hba.
          f_equal; lia. }
        rewrite Hpp. reflexivity.
      * intros _ _ Hfull. exfalso. apply Hfree. apply Hfull. exact Hgrid.
      * intros _. simpl. split; [exact Hfree | reflexivity].
      * right. exists p0. split; [exact Hfree | reflexivity].
    + split; [| split; [| split; [| split]]].
      * intros k Hk _ Hk_free. exfalso. apply Hk_free. apply Hrand. exact Hk.
      * intros p _ Hp_grid Hp_free _. exfalso. apply Hp_free. apply Hscan.
        exact Hp_grid.
      * intros _ _ _. reflexivity.
      * intros (p & Hp_grid & Hp_free). exfalso. apply Hp_free. apply Hscan.
        exact Hp_grid.
      * left. reflexivity.
Qed.

Lemma draws_nil (n : nat) : draws [] n = 0%N.
Proof. unfold draws. destruct n; reflexivity. Qed.

(** The three cases at work: a free first candidate; 100 candidates (0,0) on
    the snake and the scan ending on (3,0); a grid that is full. *)
Lemma spawn_food_places_food_witness :
  (spawn_food PTR in_the_corner (draws [2; 3]%N)).1
  = set_food in_the_corner (mkFood (mkPoint 2 3) 10) /\
  (spawn_food PTR in_the_corner (draws [])).1
  = set_food in_the_corner (mkFood (mkPoint 3 0) 10) /\
  (spawn_food PTR packed (draws [0; 2]%N)).1 = packed.
Proof.
  split; [| split].
  - apply (proj1 (spawn_food_places_food in_the_corner (draws [2; 3]%N)) O).
    + lia.
    + intros j Hj. lia.
    + apply on_snake_false. vm_compute. reflexivity.
  - apply (proj1 (proj2 (spawn_food_places_food in_the_corner (draws [])))
             (mkPoint 3 0)).
    + intros k _. unfold candidate. rewrite !draws_nil.
      apply on_snake_true. vm_compute. reflexivity.
    + vm_compute. repeat split; discriminate.
    + apply on_snake_false. vm_compute. reflexivity.
    + intros [a b] [Ha Hb] [Hlt | [Heq Hlt]]; simpl in *; [lia |].
      subst b. apply on_snake_true.
      assert (Hcases : a = 0 \/ a = 1 \/ a = 2) by lia.
      destruct Hcases as [-> | [-> | ->]]; vm_compute; reflexivity.
  - apply (proj1 (proj2 (proj2
                   (spawn_food_places_food packed (draws [0; 2]%N))))).
    + vm_compute. discriminate.
    + vm_compute. discriminate.
    + intros [a b] [Ha Hb]. simpl in *. apply on_snake_true.
      assert (Ha0 : a = 0) by lia. subst a.
      assert (Hcases : b = 0 \/ b = 1 \/ b = 2) by lia.
      destruct Hcases as [-> | [-> | ->]]; vm_compute; reflexivity.
Defined.

(** * Further properties of the code *)

(** ** The three outcomes of a tick *)

Lemma update_game_over (m : GameState) (r : Rand) :
  game_over m = true -> update_game PTR m r = (false, m, r).
Proof. intros H. unfold update_game. rewrite H. reflexivity. Qed.

Lemma update_game_collides (m : GameState) (r : Rand) :
  game_over m = false ->
  check_self_collision PTR (next_head m) m = true ->
  update_game PTR m r = (true, set_game_over m true, r).
Proof.
  intros Hlive Hc. unfold update_game. rewrite Hlive.
  unfold next_head, cell in Hc. rewrite Hc. reflexivity.
Qed.

(** The cells after a tick that moves the snake. *)
Lemma update_game_cells (m : GameState) (r : Rand) :
  array_ok m -> snake_length m <= MAX_SNAKE_LENGTH ->
  game_over m = false ->
  check_self_collision PTR (next_head m) m = false ->
  exists m' r',
    update_game PTR m r = (true, m', r') /\
    width m' = width m /\ height m' = height m /\ game_over m' = false /\
    snake_length m <= snake_length m' <= snake_length m + 1 /\
    snake_length m' <= MAX_SNAKE_LENGTH /\
    (same_cell (food_position (food m)) (next_head m) = false ->
     snake_length m' = snake_length m /\ food m' = food m /\
     score m' = score m /\ r' = r) /\
    forall j : nat,
      cell m' j = if decide (j = O) then next_head m
                  else if decide (j <= Z.to_nat (snake_length m' - 1))%nat
                       then cell m (j - 1) else cell m j.
Proof.
  intros Harr Hmax Hlive Hcoll. unfold array_ok in Harr.
  destruct (update_game_tick m r Hlive Hcoll)
    as (m' & r' & Hup & HW & HH & _ & Hgo & Hlen & Hsnake & Hscore & Hfood & Hr).
  exists m', r'.
  assert (Hle : snake_length m <= snake_length m' <= snake_length m + 1
                /\ snake_length m' <= MAX_SNAKE_LENGTH).
  { rewrite Hlen. destruct (same_cell _ _); cbn [andb]; [| lia].
    destruct (Z.ltb_spec (snake_length m) MAX_SNAKE_LENGTH); lia. }
  split; [exact Hup |]. split; [exact HW |]. split; [exact HH |].
  split; [exact Hgo |].
  split; [apply Hle |]. split; [apply Hle |]. split.
  - intros Hno. rewrite Hno in *. cbn [andb] in Hlen. auto.
  - intros j. unfold cell at 1. rewrite Hsnake, <- Hlen.
    apply moved_lookup. unfold MAX_SNAKE_LENGTH in *. lia.
Qed.

(** ** Where the segments are *)

Lemma back_in_range (a b : Z) :
  1 <= b <= SAFE_DIM -> 0 <= a < b ->
  0 <= Z.rem (wrap_int (wrap_int (a - 1) + b)) b < b.
Proof.
  unfold SAFE_DIM. intros Hb Ha.
  rewrite step_back by (unfold is_int, INT_MIN, INT_MAX; lia).
  destruct (Z.leb_spec (a - 1 + b) INT_MAX) as [_|Hgt];
    [| unfold INT_MAX in Hgt; lia].
  apply Z.rem_bound_pos; lia.
Qed.

Lemma forth_in_range (a b : Z) :
  1 <= b <= SAFE_DIM -> 0 <= a < b -> 0 <= Z.rem (wrap_int (a + 1)) b < b.
Proof.
  unfold SAFE_DIM. intros Hb Ha.
  rewrite step_forth by (unfold is_int, INT_MIN, INT_MAX; lia).
  destruct (Z.eqb_spec a INT_MAX) as [E|_]; [unfold INT_MAX in E; lia |].
  apply Z.rem_bound_pos; lia.
Qed.

Lemma get_new_position_row (p : Point) (d : Direction) (w h : Z) :
  1 <= h <= SAFE_DIM -> 0 <= py p < h ->
  0 <= py (get_new_position p d w h) < h.
Proof.
  intros Hh Hp. destruct d; simpl; try exact Hp;
    [apply back_in_range | apply forth_in_range]; assumption.
Qed.

Lemma get_new_position_column (p : Point) (d : Direction) (w h : Z) :
  1 <= w <= SAFE_DIM -> 0 <= px p < w ->
  0 <= px (get_new_position p d w h) < w.
Proof.
  intros Hw Hp. destruct d; simpl; try exact Hp;
    [apply forth_in_range | apply back_in_range]; assumption.
Qed.

Lemma half_in_range (w : Z) : 1 <= w -> 0 <= Z.quot w 2 < w.
Proof.
  intros Hw. rewrite Z.quot_div_nonneg by lia.
  pose proof (Z.div_mod w 2 ltac:(lia)).
  pose proof (Z.mod_pos_bound w 2 ltac:(lia)). lia.
Qed.

Lemma half_minus_two (w : Z) : 4 <= w -> 0 <= Z.quot w 2 - 2.
Proof.
  intros Hw. rewrite Z.quot_div_nonneg by lia.
  pose proof (Z.div_mod w 2 ltac:(lia)).
  pose proof (Z.mod_pos_bound w 2 ltac:(lia)). lia.
Qed.

(** The cells [initialize_game] writes, and the slots it leaves alone. *)
Lemma initialize_game_cells (w h : Z) (m : GameState) (r : Rand) (i : nat) :
  array_ok m ->
  cell (initialize_game PTR w h m r).1 i
  = if decide (i < 3)%nat then mkPoint (Z.quot w 2 - Z.of_nat i) (Z.quot h 2)
    else cell m i.
Proof.
  intros Harr. unfold array_ok, MAX_SNAKE_LENGTH in Harr.
  destruct (initialize_game_fields w h m r) as (_ & _ & _ & _ & _ & _ & Hs).
  cbv zeta in Hs. unfold cell. rewrite Hs.
  rewrite place_snake_lookup by lia.
  destruct (decide (0 <= i < 0 + 3)%nat), (decide (i < 3)%nat);
    (reflexivity || lia).
Qed.

Lemma initialize_game_segments_inv (w h : Z) (m : GameState) (r : Rand) :
  array_ok m -> segments_inv (initialize_game PTR w h m r).1.
Proof.
  intros Harr.
  destruct (initialize_game_fields w h m r) as (HW & HH & Hlen & _).
  cbv zeta in HW, HH, Hlen.
  unfold segments_inv, in_grid. rewrite HW, HH, Hlen.
  unfold INITIAL_SNAKE_LENGTH.
  split; [lia |]. split; [| split].
  - intros Hh i Hi. rewrite initialize_game_cells by exact Harr.
    destruct (decide (i < 3)%nat); [| lia]. simpl. apply half_in_range. lia.
  - intros Hw Hh. rewrite initialize_game_cells by exact Harr. simpl.
    pose proof (half_in_range w ltac:(lia)).
    pose proof (half_in_range h ltac:(lia)). lia.
  - intros Hw Hh i Hi. rewrite initialize_game_cells by exact Harr.
    destruct (decide (i < 3)%nat); [| lia]. simpl.
    pose proof (half_in_range w ltac:(lia)).
    pose proof (half_in_range h ltac:(lia)).
    pose proof (half_minus_two w ltac:(lia)). lia.
Qed.

Lemma update_game_segments_inv (m : GameState) (r : Rand) :
  game_inv m -> segments_inv m -> segments_inv (update_game PTR m r).1.2.
Proof.
  intros (Harr & Hmax & _) Hinv.
  pose proof Hinv as (Hmin & Hrow & Hhead & Hall).
  destruct (game_over m) eqn:Hlive.
  { rewrite update_game_over by exact Hlive. exact Hinv. }
  destruct (check_self_collision PTR (next_head m) m) eqn:Hcoll.
  { rewrite update_game_collides by assumption. exact Hinv. }
  destruct (update_game_cells m r Harr Hmax Hlive Hcoll)
    as (m' & r' & Hup & HW & HH & _ & Hlen & Hmax' & _ & Hcell).
  rewrite Hup. cbn [fst snd].
  unfold INITIAL_SNAKE_LENGTH in Hmin.
  assert (Hold : forall j : nat,
             j <> O -> Z.of_nat j < snake_length m' ->
             cell m' j = cell m (j - 1) /\ Z.of_nat (j - 1) < snake_length m).
  { intros j Hj0 Hj. rewrite Hcell.
    destruct (decide (j = O)); [lia |].
    destruct (decide (j <= Z.to_nat (snake_length m' - 1))%nat); [| lia].
    split; [reflexivity | lia]. }
  unfold segments_inv, in_grid. rewrite HW, HH.
  split; [unfold INITIAL_SNAKE_LENGTH; lia |]. split; [| split].
  - intros Hh i Hi. destruct (decide (i = O)) as [->|Hi0].
    + rewrite Hcell. simpl. apply get_new_position_row; [exact Hh |].
      apply Hrow; [exact Hh | simpl; lia].
    + destruct (Hold i Hi0 Hi) as [-> Hlt]. apply Hrow; assumption.
  - intros Hw Hh. rewrite Hcell. simpl.
    destruct (Hhead Hw Hh) as [Hx Hy]. split.
    + apply get_new_position_column; assumption.
    + apply get_new_position_row; assumption.
  - intros Hw Hh i Hi. destruct (decide (i = O)) as [->|Hi0].
    + rewrite Hcell. simpl.
      destruct (Hhead ltac:(lia) Hh) as [Hx Hy]. split.
      * apply get_new_position_column; [lia | exact Hx].
      * apply get_new_position_row; assumption.
    + destruct (Hold i Hi0 Hi) as [-> Hlt]. apply Hall; assumption.
Qed.

Lemma reachable_segments_inv (m : GameState) : reachable m -> segments_inv m.
Proof.
  induction 1 as [m w h r Harr _ _ | m r Hm IH | m d _ IH | m r _ IH
                 | m r Hm IH].
  - apply initialize_game_segments_inv. exact Harr.
  - unfold reset_game. apply initialize_game_segments_inv.
    apply (reachable_inv m Hm).
  - unfold set_direction. destruct (_ || _); exact IH.
  - destruct (spawn_food_frame PTR m r) as (H1 & H2 & H3 & H4 & _).
    cbv zeta in *. unfold segments_inv, in_grid, cell in *.
    rewrite H1, H2, H3, H4. exact IH.
  - apply update_game_segments_inv; [apply (reachable_inv m Hm) | exact IH].
Qed.

(** X1: in every reachable state the length of the snake lies between
    [INITIAL_SNAKE_LENGTH] and [MAX_SNAKE_LENGTH]. *)
Theorem reachable_snake_length_bounds (m : GameState) :
  reachable m ->
  INITIAL_SNAKE_LENGTH <= snake_length m <= MAX_SNAKE_LENGTH.
Proof.
  intros H. split.
  - apply (reachable_segments_inv m H).
  - apply (reachable_inv m H).
Qed.

Lemma reachable_snake_length_bounds_witness :
  INITIAL_SNAKE_LENGTH
  <= snake_length (update_game PTR fresh_game (draws [])).1.2
  <= MAX_SNAKE_LENGTH.
Proof.
  apply (reachable_snake_length_bounds
           (update_game PTR fresh_game (draws [])).1.2).
  apply reach_update. unfold fresh_game.
  apply reach_initialize; [reflexivity | |]; vm_compute; split; discriminate.
Defined.

(** X2: in every reachable state on a grid of at least one column and one
    row and at most [SAFE_DIM] (2^30) columns and rows the head is a cell of
    the grid. *)
Theorem reachable_head_in_grid (m : GameState) :
  reachable m ->
  1 <= width m <= SAFE_DIM -> 1 <= height m <= SAFE_DIM ->
  in_grid m (cell m 0).
Proof.
  intros H. apply (reachable_segments_inv m H).
Qed.

Lemma reachable_head_in_grid_witness : in_grid narrow_game (cell narrow_game 0).
Proof.
  apply (reachable_head_in_grid narrow_game).
  - unfold narrow_game.
    apply reach_initialize; [reflexivity | |]; vm_compute; split; discriminate.
  - vm_compute. split; discriminate.
  - vm_compute. split; discriminate.
Defined.

(** X3: in every reachable state on a grid of at least four columns and one
    row and at most [SAFE_DIM] (2^30) columns and rows every segment
    [0 .. snake_length-1] is a cell of the grid. *)
Theorem reachable_segments_in_grid (m : GameState) (i : nat) :
  reachable m ->
  4 <= width m <= SAFE_DIM -> 1 <= height m <= SAFE_DIM ->
  Z.of_nat i < snake_length m -> in_grid m (cell m i).
Proof.
  intros H Hw Hh Hi. apply (reachable_segments_inv m H); assumption.
Qed.

Lemma reachable_segments_in_grid_witness : in_grid fresh_game (cell fresh_game 2).
Proof.
  apply (reachable_segments_in_grid fresh_game 2).
  - unfold fresh_game.
    apply reach_initialize; [reflexivity | |]; vm_compute; split; discriminate.
  - vm_compute. split; discriminate.
  - vm_compute. split; discriminate.
  - vm_compute. reflexivity.
Defined.

(** X4: in a reachable state on a grid of at least one row and at most
    [SAFE_DIM] (2^30) rows, [get_snake_segment] returns the sentinel (-1,-1)
    exactly for an index outside [0 .. snake_length-1]: no segment has a
    negative row. *)
Theorem get_snake_segment_sentinel (m : GameState) (index : Z) :
  reachable m -> 1 <= height m <= SAFE_DIM ->
  (get_snake_segment PTR index m = mkPoint (-1) (-1)
   <-> index < 0 \/ snake_length m <= index).
Proof.
  intros H Hh. destruct (reachable_segments_inv m H) as (_ & Hrow & _).
  unfold get_snake_segment.
  destruct (Z.ltb_spec index 0) as [Hneg|Hpos]; cbn [orb].
  - split; [intros _; left; exact Hneg | reflexivity].
  - destruct (Z.leb_spec (snake_length m) index) as [Hout|Hin].
    + split; [intros _; right; exact Hout | reflexivity].
    + split; [| lia]. intros E.
      specialize (Hrow Hh (Z.to_nat index) ltac:(lia)).
      unfold cell in Hrow. rewrite E in Hrow. simpl in Hrow. lia.
Qed.

Lemma get_snake_segment_sentinel_witness :
  get_snake_segment PTR 3 narrow_game = mkPoint (-1) (-1)
  /\ get_snake_segment PTR 2 narrow_game <> mkPoint (-1) (-1).
Proof.
  assert (Hreach : reachable narrow_game).
  { unfold narrow_game.
    apply reach_initialize; [reflexivity | |]; vm_compute; split; discriminate. }
  assert (Hh : 1 <= height narrow_game <= SAFE_DIM).
  { vm_compute. split; discriminate. }
  split.
  - apply (get_snake_segment_sentinel narrow_game 3 Hreach Hh).
    right. vm_compute. discriminate.
  - intros E. apply (get_snake_segment_sentinel narrow_game 2 Hreach Hh) in E.
    vm_compute in E. destruct E as [E|E];
      [discriminate E | apply E; reflexivity].
Defined.

(** ** What a tick does and does not do *)

(** X5: with a valid pointer [update_game] returns [false] exactly when the
    game was already over. *)
Theorem update_game_returns (m : GameState) (r : Rand) :
  (update_game PTR m r).1.1 = negb (game_over m).
Proof.
  destruct (game_over m) eqn:Hlive.
  - rewrite update_game_over by exact Hlive. reflexivity.
  - destruct (check_self_collision PTR (next_head m) m) eqn:Hcoll.
    + rewrite update_game_collides by assumption. reflexivity.
    + destruct (update_game_tick m r Hlive Hcoll) as (m' & r' & Hup & _).
      rewrite Hup. reflexivity.
Qed.

(** X6: a tick of a live game ends the game exactly when the new head falls on
    the cell of a segment [1 .. snake_length-1]; nothing else sets
    [game_over]. *)
Theorem update_game_ends_only_by_collision (m : GameState) (r : Rand) :
  game_over m = false ->
  (game_over (update_game PTR m r).1.2 = true
   <-> exists i : nat,
         (1 <= i)%nat /\ Z.of_nat i < snake_length m /\ cell m i = next_head m).
Proof.
  intros Hlive. rewrite <- check_self_collision_true.
  destruct (check_self_collision PTR (next_head m) m) eqn:Hcoll.
  - rewrite update_game_collides by assumption. simpl. tauto.
  - destruct (update_game_tick m r Hlive Hcoll)
      as (m' & r' & Hup & _ & _ & _ & Hgo & _).
    rewrite Hup. cbn [fst snd]. rewrite Hgo. split; discriminate.
Qed.

Lemma update_game_ends_only_by_collision_witness :
  game_over (update_game PTR coiled (draws [])).1.2 = true
  /\ game_over (update_game PTR fresh_game (draws [])).1.2 <> true.
Proof.
  split.
  - apply (update_game_ends_only_by_collision coiled (draws []));
      [reflexivity |].
    exists 3%nat. split; [lia |]. split; vm_compute; reflexivity.
  - intros E.
    apply (update_game_ends_only_by_collision fresh_game (draws [])) in E;
      [| reflexivity].
    apply check_self_collision_true in E. vm_compute in E. discriminate.
Defined.

(** X7: a tick never changes the width, the height or the direction; the
    length stays or grows by one; the score stays or becomes the [int] sum of
    the score and the value of the food as it was before the tick. *)
Theorem update_game_frame (m : GameState) (r : Rand) :
  width (update_game PTR m r).1.2 = width m /\
  height (update_game PTR m r).1.2 = height m /\
  direction (update_game PTR m r).1.2 = direction m /\
  snake_length m <= snake_length (update_game PTR m r).1.2
                 <= snake_length m + 1 /\
  (score (update_game PTR m r).1.2 = score m \/
   score (update_game PTR m r).1.2 = wrap_int (score m + value (food m))).
Proof.
  destruct (game_over m) eqn:Hlive.
  { rewrite update_game_over by exact Hlive. cbn [fst snd].
    repeat split; auto; lia. }
  destruct (check_self_collision PTR (next_head m) m) eqn:Hcoll.
  { rewrite update_game_collides by assumption. cbn [fst snd]. simpl.
    repeat split; auto; lia. }
  destruct (update_game_tick m r Hlive Hcoll)
    as (m' & r' & Hup & HW & HH & Hd & _ & Hlen & _ & Hscore & _).
  rewrite Hup. cbn [fst snd].
  split; [exact HW |]. split; [exact HH |]. split; [exact Hd |].
  split.
  - rewrite Hlen. destruct (same_cell _ _ && _); lia.
  - rewrite Hscore. destruct (same_cell _ _); auto.
Qed.

(** X8: a tick that neither hits the body nor reaches the food draws no
    random number and keeps the length, the score and the food; the head
    takes the new head cell, every other segment takes the cell of the
    segment before it, and the array slots from [snake_length] on are not
    written. *)
Theorem update_game_plain_move (m : GameState) (r : Rand) :
  array_ok m ->
  1 <= snake_length m <= MAX_SNAKE_LENGTH ->
  game_over m = false ->
  next_head m <> food_position (food m) ->
  (forall i : nat, (1 <= i)%nat -> Z.of_nat i < snake_length m ->
                   cell m i <> next_head m) ->
  exists m',
    update_game PTR m r = (true, m', r) /\
    game_over m' = false /\
    snake_length m' = snake_length m /\
    score m' = score m /\ food m' = food m /\
    cell m' 0 = next_head m /\
    (forall i : nat, Z.of_nat (S i) < snake_length m ->
                     cell m' (S i) = cell m i) /\
    (forall j : nat, snake_length m <= Z.of_nat j -> cell m' j = cell m j).
Proof.
  intros Harr [Hlen1 Hmax] Hlive Hfood Hbody.
  apply check_self_collision_false in Hbody.
  destruct (update_game_cells m r Harr Hmax Hlive Hbody)
    as (m' & r' & Hup & _ & _ & Hgo & _ & _ & Hno & Hcell).
  assert (Hne : same_cell (food_position (food m)) (next_head m) = false).
  { apply same_cell_neq. congruence. }
  destruct (Hno Hne) as (Hlen & Hf & Hs & ->).
  exists m'. split; [exact Hup |]. split; [exact Hgo |].
  split; [exact Hlen |]. split; [exact Hs |]. split; [exact Hf |].
  split; [| split].
  - rewrite Hcell. reflexivity.
  - intros i Hi. rewrite Hcell, Hlen.
    destruct (decide (S i = O)); [lia |].
    destruct (decide (S i <= Z.to_nat (snake_length m - 1))%nat); [| lia].
    f_equal. lia.
  - intros j Hj. rewrite Hcell, Hlen.
    destruct (decide (j = O)); [lia |].
    destruct (decide (j <= Z.to_nat (snake_length m - 1))%nat);
      [lia | reflexivity].
Qed.

Lemma update_game_plain_move_witness :
  exists m',
    update_game PTR (set_direction PTR UP fresh_game) (draws []) 
    = (true, m', draws []) /\
    snake_length m' = 3 /\ score m' = 0 /\
    cell m' 0 = mkPoint 5 4 /\ cell m' 1 = mkPoint 5 5 /\
    cell m' 2 = mkPoint 4 5 /\ cell m' 3 = mkPoint 0 0.
Proof.
  destruct (update_game_plain_move (set_direction PTR UP fresh_game) (draws []))
    as (m' & Hup & _ & Hlen & Hscore & _ & Hhead & Hshift & Hrest).
  - reflexivity.
  - vm_compute. split; discriminate.
  - reflexivity.
  - vm_compute. discriminate.
  - apply check_self_collision_false. vm_compute. reflexivity.
  - exists m'. split; [exact Hup |]. split; [exact Hlen |].
    split; [exact Hscore |]. split; [exact Hhead |].
    split; [apply (Hshift 0%nat); vm_compute; reflexivity |].
    split; [apply (Hshift 1%nat); vm_compute; reflexivity |].
    apply (Hrest 3%nat). vm_compute. discriminate.
Defined.

(** X9: at full length a tick that eats moves the snake like a plain move:
    the length stays [MAX_SNAKE_LENGTH], the head takes the food cell and
    every other segment takes the cell of the segment before it, so the old
    tail cell is given up. *)
Theorem update_game_eats_at_full_length (m : GameState) (r : Rand) :
  array_ok m ->
  snake_length m = MAX_SNAKE_LENGTH ->
  game_over m = false ->
  next_head m = food_position (food m) ->
  (forall i : nat, (1 <= i)%nat -> Z.of_nat i < snake_length m ->
                   cell m i <> next_head m) ->
  exists m' r',
    update_game PTR m r = (true, m', r') /\
    snake_length m' = MAX_SNAKE_LENGTH /\
    cell m' 0 = food_position (food m) /\
    forall i : nat, Z.of_nat (S i) < MAX_SNAKE_LENGTH ->
                    cell m' (S i) = cell m i.
Proof.
  intros Harr Hfull Hlive Hfood Hbody.
  apply check_self_collision_false in Hbody.
  destruct (update_game_cells m r Harr ltac:(lia) Hlive Hbody)
    as (m' & r' & Hup & _ & _ & _ & Hlen & Hmax & _ & Hcell).
  assert (Hlen' : snake_length m' = MAX_SNAKE_LENGTH) by lia.
  exists m', r'. split; [exact Hup |]. split; [exact Hlen' |]. split.
  - rewrite Hcell. simpl. exact Hfood.
  - intros i Hi. rewrite Hcell, Hlen'.
    destruct (decide (S i = O)); [lia |].
    destruct (decide (S i <= Z.to_nat (MAX_SNAKE_LENGTH - 1))%nat); [| lia].
    f_equal. lia.
Qed.

Lemma update_game_eats_at_full_length_witness :
  exists m' r',
    update_game PTR full_length (draws [7; 0]%N) = (true, m', r') /\
    snake_length m' = 100 /\ cell m' 0 = mkPoint 101 2 /\
    cell m' 99 = mkPoint 2 2.
Proof.
  destruct (update_game_eats_at_full_length full_length (draws [7; 0]%N))
    as (m' & r' & Hup & Hlen & Hhead & Hshift).
  - reflexivity.
  - reflexivity.
  - reflexivity.
  - vm_compute. reflexivity.
  - apply check_self_collision_false. vm_compute. reflexivity.
  - exists m', r'. split; [exact Hup |]. split; [exact Hlen |].
    split; [exact Hhead |].
    apply (Hshift 98%nat). vm_compute. reflexivity.
Defined.

(** ** More on spawning *)

(** Either nothing is placed, all candidates and all grid cells being on the
    snake, or the food is put with value 10 on a cell off the snake that is a
    candidate or a grid cell. *)
Lemma spawn_food_outcome (m : GameState) (r : Rand) :
  ((spawn_food PTR m r).1 = m /\
   (forall k : nat, (k < 100)%nat -> occupied m (candidate m r k)) /\
   (forall p : Point, in_grid m p -> occupied m p))
  \/
  (exists p : Point,
      (spawn_food PTR m r).1 = set_food m (mkFood p 10) /\
      ~ occupied m p /\
      ((exists k : nat, (k < 100)%nat /\ p = candidate m r k) \/ in_grid m p)).
Proof.
  pose proof (random_attempts_spec m MAX_ATTEMPTS r) as Hrand.
  pose proof (scan_grid_spec m) as Hscan.
  unfold spawn_food.
  destruct (random_attempts m MAX_ATTEMPTS r) as [[c|] r']; cbn [fst] in *.
  - destruct Hrand as (k & Hk & Hc & Hfree & _). right. exists c.
    split; [reflexivity |]. split; [exact Hfree |]. left. exists k. auto.
  - destruct (scan_grid m) as [p0|]; cbn [fst].
    + destruct Hscan as (Hgrid & Hfree & _). right. exists p0. auto.
    + left. auto.
Qed.

Lemma spawn_food_off_snake (m : GameState) (r : Rand) :
  (exists p : Point, in_grid m p /\ ~ occupied m p) ->
  ~ occupied m (food_position (food (spawn_food PTR m r).1)) /\
  value (food (spawn_food PTR m r).1) = 10.
Proof.
  intros (p & Hgrid & Hfree).
  destruct (spawn_food_outcome m r) as [(_ & _ & Hfull) | (q & -> & Hq & _)].
  - exfalso. apply Hfree. apply Hfull. exact Hgrid.
  - simpl. auto.
Qed.

(** X10: [spawn_food] puts the food inside the grid: on a grid of at least
    one column and one row it either changes nothing or leaves the food, with
    value 10, on a cell of the grid that no segment occupies. *)
Theorem spawn_food_in_grid (m : GameState) (r : Rand) :
  1 <= width m -> 1 <= height m ->
  (spawn_food PTR m r).1 = m \/
  (in_grid m (food_position (food (spawn_food PTR m r).1)) /\
   ~ occupied m (food_position (food (spawn_food PTR m r).1)) /\
   value (food (spawn_food PTR m r).1) = 10).
Proof.
  intros Hw Hh.
  destruct (spawn_food_outcome m r) as [(E & _) | (p & -> & Hfree & Hwhere)].
  - left. exact E.
  - right. simpl. split; [| auto].
    destruct Hwhere as [(k & _ & ->) | Hgrid];
      [apply candidate_in_grid; assumption | exact Hgrid].
Qed.

Lemma spawn_food_in_grid_witness :
  in_grid in_the_corner
          (food_position (food (spawn_food PTR in_the_corner (draws [])).1)).
Proof.
  destruct (spawn_food_in_grid in_the_corner (draws [])) as [E | (H & _)].
  - vm_compute. discriminate.
  - vm_compute. discriminate.
  - exfalso. apply (f_equal food) in E. vm_compute in E. discriminate.
  - exact H.
Defined.

Lemma random_attempts_draws (m : GameState) (n : nat) :
  forall r : Rand,
    exists k : nat,
      (k <= n)%nat /\
      (forall i : nat, (random_attempts m n r).2 i = r (2 * k + i)%nat) /\
      match (random_attempts m n r).1 with
      | Some p =>
          (1 <= k)%nat /\ ~ occupied m (candidate m r (k - 1)) /\
          forall j : nat, (j < k - 1)%nat -> occupied m (candidate m r j)
      | None =>
          k = n /\ forall j : nat, (j < n)%nat -> occupied m (candidate m r j)
      end.
Proof.
  induction n as [|n IH]; intros r; unfold random_attempts;
    fold random_attempts.
  - exists O. simpl. repeat split; auto. intros j Hj. lia.
  - rewrite get_random_grid. rewrite get_random_grid.
    change (mkPoint (Z.rem (Z.of_N (r O)) (width m))
                    (Z.rem (Z.of_N (r 1%nat)) (height m)))
      with (candidate m r 0).
    destruct (on_snake m (candidate m r 0)) eqn:Hocc.
    + apply on_snake_true in Hocc.
      destruct (IH (fun n => r (S (S n)))) as (k & Hk & Hr & Hres).
      exists (S k). split; [lia |]. split.
      * intros i. rewrite Hr. f_equal. lia.
      * destruct (random_attempts m n (fun n => r (S (S n)))) as [[p|] r2];
          cbn [fst] in *.
        -- destruct Hres as (Hk1 & Hfree & Hbefore).
           rewrite candidate_next in Hfree.
           replace (S (k - 1)) with (S k - 1)%nat in Hfree by lia.
           split; [lia |]. split; [exact Hfree |].
           intros [|j] Hj; [exact Hocc |].
           rewrite <- candidate_next. apply Hbefore. lia.
        -- destruct Hres as [-> Hall]. split; [reflexivity |].
           intros [|j] Hj; [exact Hocc |].
           rewrite <- candidate_next. apply Hall. lia.
    + apply on_snake_false in Hocc.
      exists 1%nat. cbn [fst snd]. split; [lia |]. split.
      * intros i. reflexivity.
      * split; [lia |]. split; [exact Hocc |]. intros j Hj. lia.
Qed.

(** X11: [spawn_food] draws two random numbers for each candidate it tries
    and none for the fallback scan: with the first free candidate at index
    [k] the stream is left after [2(k+1)] draws, and after 200 draws when all
    100 candidates are on the snake. *)
Theorem spawn_food_draws (m : GameState) (r : Rand) :
  (forall k : nat,
      (k < 100)%nat ->
      (forall j : nat, (j < k)%nat -> occupied m (candidate m r j)) ->
      ~ occupied m (candidate m r k) ->
      forall i : nat,
        (spawn_food PTR m r).2 i = after_draws (2 * (k + 1)) r i) /\
  ((forall k : nat, (k < 100)%nat -> occupied m (candidate m r k)) ->
   forall i : nat, (spawn_food PTR m r).2 i = after_draws 200 r i).
Proof.
  destruct (random_attempts_draws m MAX_ATTEMPTS r) as (k0 & Hk0 & Hr & Hres).
  assert (Hsnd : (spawn_food PTR m r).2 = (random_attempts m MAX_ATTEMPTS r).2).
  { unfold spawn_food.
    destruct (random_attempts m MAX_ATTEMPTS r) as [[c|] r']; [reflexivity |].
    destruct (scan_grid m); reflexivity. }
  rewrite Hsnd. unfold after_draws, MAX_ATTEMPTS in *.
  destruct (random_attempts m 100 r) as [[c|] r']; cbn [fst snd] in *.
  - destruct Hres as (Hk1 & Hfree & Hbefore). split.
    + intros k Hk Hocc Hk_free i. rewrite Hr.
      assert (Hkk : k = (k0 - 1)%nat).
      { destruct (Nat.lt_trichotomy k (k0 - 1)) as [Hlt | [E | Hgt]];
          [| exact E |].
        - exfalso. apply Hk_free. apply Hbefore. exact Hlt.
        - exfalso. apply Hfree. apply Hocc. exact Hgt. }
      f_equal. lia.
    + intros Hall i. exfalso. apply Hfree. apply Hall. lia.
  - destruct Hres as [-> Hall]. split.
    + intros k Hk _ Hk_free i. exfalso. apply Hk_free. apply Hall. exact Hk.
    + intros _ i. rewrite Hr. reflexivity.
Qed.

Lemma spawn_food_draws_witness :
  (forall i : nat,
      (spawn_food PTR in_the_corner (draws [2; 3; 8]%N)).2 i
      = after_draws 2 (draws [2; 3; 8]%N) i) /\
  (forall i : nat,
      (spawn_food PTR in_the_corner (draws [])).2 i
      = after_draws 200 (draws []) i).
Proof.
  split.
  - apply (proj1 (spawn_food_draws in_the_corner (draws [2; 3; 8]%N)) O).
    + lia.
    + intros j Hj. lia.
    + apply on_snake_false. vm_compute. reflexivity.
  - apply (proj2 (spawn_food_draws in_the_corner (draws []))).
    intros k _. unfold candidate. rewrite !draws_nil.
    apply on_snake_true. vm_compute. reflexivity.
Defined.

(** X12: for [min <= max], [get_random min max] returns a value between
    [min] and [max], both included, and takes one draw. *)
Theorem get_random_range (min max : Z) (r : Rand) :
  min <= max ->
  min <= (get_random min max r).1 <= max /\
  forall i : nat, (get_random min max r).2 i = after_draws 1 r i.
Proof.
  intros Hle. unfold get_random, rand, after_draws. cbn [fst snd].
  split; [| reflexivity].
  pose proof (Z.rem_bound_pos (Z.of_N (r O)) (max - min + 1)
                              ltac:(lia) ltac:(lia)).
  lia.
Qed.

Lemma get_random_range_witness :
  3 <= (get_random 3 7 (draws [12]%N)).1 <= 7.
Proof.
  apply (get_random_range 3 7 (draws [12]%N)). lia.
Defined.

(** ** Score and food over a run *)

Lemma score_after_tick (m : GameState) (r : Rand) :
  score (update_game PTR m r).1.2 = score m \/
  score (update_game PTR m r).1.2 = wrap_int (score m + value (food m)).
Proof.
  destruct (game_over m) eqn:Hlive.
  { rewrite update_game_over by exact Hlive. left. reflexivity. }
  destruct (check_self_collision PTR (next_head m) m) eqn:Hcoll.
  { rewrite update_game_collides by assumption. left. reflexivity. }
  destruct (update_game_tick m r Hlive Hcoll)
    as (m' & r' & Hup & _ & _ & _ & _ & _ & _ & Hscore & _).
  rewrite Hup. cbn [fst snd]. rewrite Hscore.
  destruct (same_cell _ _); auto.
Qed.

Lemma update_game_food (m : GameState) (r : Rand) :
  food (update_game PTR m r).1.2 = food m \/
  value (food (update_game PTR m r).1.2) = 10.
Proof.
  destruct (game_over m) eqn:Hlive.
  { rewrite update_game_over by exact Hlive. left. reflexivity. }
  destruct (check_self_collision PTR (next_head m) m) eqn:Hcoll.
  { rewrite update_game_collides by assumption. left. reflexivity. }
  destruct (update_game_tick m r Hlive Hcoll)
    as (m' & r' & Hup & _ & _ & _ & _ & _ & _ & _ & Hfood & _).
  rewrite Hup. cbn [fst snd]. rewrite Hfood.
  destruct (same_cell _ _); [| left; reflexivity].
  match goal with |- context [spawn_food PTR ?a r] =>
    destruct (spawn_food_outcome a r) as [(E & _) | (p & E & _)]
  end; rewrite E; [left | right]; reflexivity.
Qed.

(** X13: in a game whose food has a non-negative value the score does not
    decrease over [n] ticks, whatever the draws, as long as the score can
    take [n] more foods without leaving [int]: the score plus [n] times the
    larger of 10 and the food value is at most [INT_MAX].  The value of the
    food is at every point the initial one or 10. *)
Theorem run_updates_score_grows (n : nat) :
  forall (m : GameState) (r : Rand),
    0 <= value (food m) ->
    INT_MIN <= score m ->
    score m + Z.of_nat n * Z.max (value (food m)) 10 <= INT_MAX ->
    score m <= score (run_updates n m r).1 /\
    (value (food (run_updates n m r).1) = value (food m) \/
     value (food (run_updates n m r).1) = 10).
Proof.
  induction n as [|n IH]; intros m r Hv Hmin Hroom; cbn [run_updates].
  - simpl. split; [lia | left; reflexivity].
  - pose proof (score_after_tick m r) as Hs.
    pose proof (update_game_food m r) as Hf.
    destruct (update_game PTR m r) as [[b m'] r']. cbn [fst snd] in *.
    set (M := Z.max (value (food m)) 10) in *.
    assert (HM : value (food m) <= M /\ 10 <= M) by (subst M; lia).
    assert (Hn : 0 <= Z.of_nat n * M) by (apply Z.mul_nonneg_nonneg; lia).
    replace (Z.of_nat (S n) * M) with (M + Z.of_nat n * M) in Hroom by lia.
    assert (Hsum : wrap_int (score m + value (food m))
                   = score m + value (food m)).
    { apply wrap_int_small. unfold is_int. lia. }
    rewrite Hsum in Hs.
    assert (Hv' : 0 <= value (food m') /\ Z.max (value (food m')) 10 <= M).
    { destruct Hf as [-> | ->]; subst M; lia. }
    assert (Hn' : Z.of_nat n * Z.max (value (food m')) 10 <= Z.of_nat n * M).
    { apply Z.mul_le_mono_nonneg_l; lia. }
    destruct (IH m' r' ltac:(lia) ltac:(lia) ltac:(lia)) as [Hle Hval].
    split; [lia |].
    destruct Hval as [-> | ->]; [| right; reflexivity].
    destruct Hf as [-> | ->]; auto.
Qed.

Lemma run_updates_score_grows_witness :
  score fresh_game <= score (run_updates 4 fresh_game (draws [8; 5]%N)).1.
Proof.
  apply (run_updates_score_grows 4 fresh_game (draws [8; 5]%N));
    vm_compute; discriminate.
Defined.

(** X14: a tick that does not reach the food keeps the food off the snake:
    if no segment is on the food cell and the new head is not the food cell,
    no segment is on it after the tick. *)
Theorem update_game_keeps_food_free (m : GameState) (r : Rand) :
  array_ok m -> snake_length m <= MAX_SNAKE_LENGTH ->
  ~ occupied m (food_position (food m)) ->
  next_head m <> food_position (food m) ->
  food (update_game PTR m r).1.2 = food m /\
  ~ occupied (update_game PTR m r).1.2 (food_position (food m)).
Proof.
  intros Harr Hmax Hfree Hnh.
  destruct (game_over m) eqn:Hlive.
  { rewrite update_game_over by exact Hlive. auto. }
  destruct (check_self_collision PTR (next_head m) m) eqn:Hcoll.
  { rewrite update_game_collides by assumption. auto. }
  destruct (update_game_cells m r Harr Hmax Hlive Hcoll)
    as (m' & r' & Hup & _ & _ & _ & _ & _ & Hno & Hcell).
  assert (Hne : same_cell (food_position (food m)) (next_head m) = false).
  { apply same_cell_neq. congruence. }
  destruct (Hno Hne) as (Hlen & Hf & _).
  rewrite Hup. cbn [fst snd]. split; [exact Hf |].
  intros (j & Hj & Hcj). rewrite Hcell in Hcj.
  destruct (decide (j = O)); [contradiction |].
  destruct (decide (j <= Z.to_nat (snake_length m' - 1))%nat); [| lia].
  apply Hfree. exists (j - 1)%nat. split; [lia | exact Hcj].
Qed.

Lemma update_game_keeps_food_free_witness :
  ~ occupied (update_game PTR (set_direction PTR UP fresh_game) (draws [])).1.2
             (mkPoint 6 5).
Proof.
  apply (update_game_keeps_food_free (set_direction PTR UP fresh_game)
                                     (draws [])).
  - reflexivity.
  - vm_compute. discriminate.
  - apply on_snake_false. vm_compute. reflexivity.
  - vm_compute. discriminate.
Defined.

(** X15: after a tick that eats, the new food is on none of the segments
    [1 .. snake_length-1]: provided the grid had a cell free of the segments
    [spawn_food] tests (the slots [0 .. snake_length-1] of the array after the
    length has been raised), only the head can lie on the food. *)
Theorem update_game_new_food_off_body (m : GameState) (r : Rand) (j : nat) :
  array_ok m -> snake_length m <= MAX_SNAKE_LENGTH ->
  game_over m = false ->
  next_head m = food_position (food m) ->
  (forall i : nat, (1 <= i)%nat -> Z.of_nat i < snake_length m ->
                   cell m i <> next_head m) ->
  (exists p : Point,
      in_grid m p /\
      ~ occupied (set_snake_length
                    m (if snake_length m <? MAX_SNAKE_LENGTH
                       then snake_length m + 1 else snake_length m)) p) ->
  (1 <= j)%nat -> Z.of_nat j < snake_length (update_game PTR m r).1.2 ->
  cell (update_game PTR m r).1.2 j
  <> food_position (food (update_game PTR m r).1.2).
Proof.
  intros Harr Hmax Hlive Hfood Hbody Hroom Hj1 Hj.
  apply check_self_collision_false in Hbody.
  assert (Heat : same_cell (food_position (food m)) (next_head m) = true).
  { apply same_cell_eq. symmetry. exact Hfood. }
  destruct (update_game_tick m r Hlive Hbody)
    as (m' & r' & Hup & _ & _ & _ & _ & Hlen & _ & _ & Hf & _).
  destruct (update_game_cells m r Harr Hmax Hlive Hbody)
    as (m2 & r2 & Hup2 & _ & _ & _ & _ & _ & _ & Hcell).
  rewrite Hup in Hup2. injection Hup2 as <- <-.
  rewrite Hup in *. cbn [fst snd] in *.
  rewrite Heat in Hlen, Hf. cbn [andb] in Hlen.
  match type of Hf with context [spawn_food PTR ?a r] =>
    destruct (spawn_food_off_snake a r Hroom) as [Hoff _]
  end.
  rewrite <- Hf in Hoff. intros E. apply Hoff.
  rewrite Hcell in E.
  destruct (decide (j = O)); [lia |].
  destruct (decide (j <= Z.to_nat (snake_length m' - 1))%nat); [| lia].
  exists (j - 1)%nat. split; [| exact E].
  cbn [snake_length andb]. rewrite <- Hlen. lia.
Qed.

Lemma update_game_new_food_off_body_witness :
  cell (update_game PTR fresh_game (draws [6; 5]%N)).1.2 1
  <> food_position (food (update_game PTR fresh_game (draws [6; 5]%N)).1.2).
Proof.
  apply (update_game_new_food_off_body fresh_game (draws [6; 5]%N) 1).
  - reflexivity.
  - vm_compute. discriminate.
  - reflexivity.
  - vm_compute. reflexivity.
  - apply check_self_collision_false. vm_compute. reflexivity.
  - exists (mkPoint 9 9). split.
    + vm_compute. repeat split; discriminate.
    + apply on_snake_false. vm_compute. reflexivity.
  - lia.
  - vm_compute. reflexivity.
Defined.

(** ** Starting and restarting a game *)

(** X16: [initialize_game] sets the dimensions, length 3, direction right,
    score 0 and a live game, lays the three segments out leftwards from the
    centre cell [(width/2, height/2)], and writes no other slot of the
    array. *)
Theorem initialize_game_layout (w h : Z) (m : GameState) (r : Rand) :
  array_ok m ->
  width (initialize_game PTR w h m r).1 = w /\
  height (initialize_game PTR w h m r).1 = h /\
  snake_length (initialize_game PTR w h m r).1 = 3 /\
  direction (initialize_game PTR w h m r).1 = RIGHT /\
  score (initialize_game PTR w h m r).1 = 0 /\
  game_over (initialize_game PTR w h m r).1 = false /\
  array_ok (initialize_game PTR w h m r).1 /\
  (forall i : nat,
      (i < 3)%nat ->
      cell (initialize_game PTR w h m r).1 i
      = mkPoint (Z.quot w 2 - Z.of_nat i) (Z.quot h 2)) /\
  (forall i : nat,
      (3 <= i)%nat -> cell (initialize_game PTR w h m r).1 i = cell m i).
Proof.
  intros Harr.
  destruct (initialize_game_fields w h m r)
    as (HW & HH & Hlen & Hd & Hs & Hgo & Hsnake).
  cbv zeta in *.
  split; [exact HW |]. split; [exact HH |]. split; [exact Hlen |].
  split; [exact Hd |]. split; [exact Hs |]. split; [exact Hgo |].
  split; [| split].
  - unfold array_ok. rewrite Hsnake, place_snake_length. exact Harr.
  - intros i Hi. rewrite initialize_game_cells by exact Harr.
    destruct (decide (i < 3)%nat); [reflexivity | lia].
  - intros i Hi. rewrite initialize_game_cells by exact Harr.
    destruct (decide (i < 3)%nat); [lia | reflexivity].
Qed.

Lemma initialize_game_layout_witness :
  cell (initialize_game PTR 7 4 blank (draws [])).1 2 = mkPoint 1 2.
Proof.
  apply (initialize_game_layout 7 4 blank (draws [])); [reflexivity | lia].
Defined.

(** X17: on a grid of at least one column and one row, the three segments
    [initialize_game] writes all lie in the grid exactly when the grid has
    at least four columns; on a narrower grid the tail starts left of
    column 0. *)
Theorem initialize_game_fits (w h : Z) (m : GameState) (r : Rand) :
  array_ok m -> 1 <= w -> 1 <= h ->
  ((forall i : nat,
       Z.of_nat i < snake_length (initialize_game PTR w h m r).1 ->
       in_grid (initialize_game PTR w h m r).1
               (cell (initialize_game PTR w h m r).1 i))
   <-> 4 <= w).
Proof.
  intros Harr Hw Hh.
  destruct (initialize_game_fields w h m r) as (HW & HH & Hlen & _).
  cbv zeta in *. split.
  - intros Hall. specialize (Hall 2%nat).
    rewrite Hlen in Hall. specialize (Hall ltac:(unfold INITIAL_SNAKE_LENGTH; lia)).
    rewrite initialize_game_cells in Hall by exact Harr.
    destruct Hall as [Hx _]. simpl in Hx.
    rewrite Z.quot_div_nonneg in Hx by lia.
    pose proof (Z.div_mod w 2 ltac:(lia)).
    pose proof (Z.mod_pos_bound w 2 ltac:(lia)). lia.
  - intros H4 i Hi. rewrite Hlen in Hi. unfold INITIAL_SNAKE_LENGTH in Hi.
    rewrite initialize_game_cells by exact Harr.
    destruct (decide (i < 3)%nat); [| lia].
    unfold in_grid. rewrite HW, HH. simpl.
    pose proof (half_in_range w Hw). pose proof (half_in_range h Hh).
    pose proof (half_minus_two w H4). lia.
Qed.

Lemma initialize_game_fits_witness :
  in_grid (initialize_game PTR 7 4 blank (draws [])).1
          (cell (initialize_game PTR 7 4 blank (draws [])).1 2).
Proof.
  apply (proj2 (initialize_game_fits 7 4 blank (draws [])
                  eq_refl ltac:(lia) ltac:(lia)));
    [lia | vm_compute; reflexivity].
Defined.

Lemma half_plus_one (w : Z) : 3 <= w -> Z.quot w 2 + 1 < w.
Proof.
  intros Hw. rewrite Z.quot_div_nonneg by lia.
  pose proof (Z.div_mod w 2 ltac:(lia)).
  pose proof (Z.mod_pos_bound w 2 ltac:(lia)). lia.
Qed.

(** The object [initialize_game] hands to [spawn_food]. *)
Lemma initialize_game_spawns (w h : Z) (m : GameState) (r : Rand) :
  initialize_game PTR w h m r
  = spawn_food PTR
      (mkGame w h (place_snake (snake m) (Z.quot w 2) (Z.quot h 2) 0 3)
              INITIAL_SNAKE_LENGTH RIGHT (food m) 0 false) r.
Proof. reflexivity. Qed.

Lemma laid_out_occupied (w h : Z) (m : GameState) (p : Point) :
  array_ok m ->
  (occupied (mkGame w h (place_snake (snake m) (Z.quot w 2) (Z.quot h 2) 0 3)
                    INITIAL_SNAKE_LENGTH RIGHT (food m) 0 false) p
   <-> py p = Z.quot h 2 /\
       (px p = Z.quot w 2 \/ px p = Z.quot w 2 - 1 \/ px p = Z.quot w 2 - 2)).
Proof.
  intros Harr. unfold array_ok, MAX_SNAKE_LENGTH in Harr.
  unfold occupied, cell. cbn [snake snake_length].
  unfold INITIAL_SNAKE_LENGTH. split.
  - intros (i & Hi & <-). rewrite place_snake_lookup by lia.
    destruct (decide (0 <= i < 0 + 3)%nat); [| lia]. simpl. lia.
  - intros [Hy Hx]. destruct p as [a b]. simpl in *. subst b.
    assert (Hi : exists i : nat, (i < 3)%nat /\ a = Z.quot w 2 - Z.of_nat i).
    { destruct Hx as [-> | [-> | ->]];
        [exists 0%nat | exists 1%nat | exists 2%nat]; split; lia. }
    destruct Hi as (i & Hi & ->). exists i. split; [lia |].
    rewrite place_snake_lookup by lia.
    destruct (decide (0 <= i < 0 + 3)%nat); [reflexivity | lia].
Qed.

(** X18: on a grid of at least three columns and one row, or at least one
    column and two rows, [initialize_game] leaves the food with value 10 on a
    cell of the grid that no segment occupies. *)
Theorem initialize_game_places_food (w h : Z) (m : GameState) (r : Rand) :
  array_ok m ->
  (3 <= w /\ 1 <= h) \/ (1 <= w /\ 2 <= h) ->
  in_grid (initialize_game PTR w h m r).1
          (food_position (food (initialize_game PTR w h m r).1)) /\
  ~ occupied (initialize_game PTR w h m r).1
             (food_position (food (initialize_game PTR w h m r).1)) /\
  value (food (initialize_game PTR w h m r).1) = 10.
Proof.
  intros Harr Hdim. rewrite initialize_game_spawns.
  set (m2 := mkGame w h (place_snake (snake m) (Z.quot w 2) (Z.quot h 2) 0 3)
                    INITIAL_SNAKE_LENGTH RIGHT (food m) 0 false).
  assert (Hw : 1 <= w) by lia. assert (Hh : 1 <= h) by lia.
  pose proof (half_in_range w Hw) as Hqw.
  pose proof (half_in_range h Hh) as Hqh.
  assert (Hroom : exists p : Point, in_grid m2 p /\ ~ occupied m2 p).
  { destruct Hdim as [[H3 _] | [_ H2]].
    - exists (mkPoint (Z.quot w 2 + 1) (Z.quot h 2)). split.
      + unfold in_grid. simpl. pose proof (half_plus_one w H3). lia.
      + unfold m2. rewrite laid_out_occupied by exact Harr. simpl. lia.
    - exists (mkPoint 0 (if Z.quot h 2 =? 0 then 1 else 0)). split.
      + unfold in_grid. simpl. destruct (Z.quot h 2 =? 0); lia.
      + unfold m2. rewrite laid_out_occupied by exact Harr. simpl.
        destruct (Z.eqb_spec (Z.quot h 2) 0); lia. }
  destruct (spawn_food_outcome m2 r)
    as [(_ & _ & Hfull) | (p & E & Hfree & Hwhere)].
  - exfalso. destruct Hroom as (p & Hp & Hfree). apply Hfree, Hfull, Hp.
  - rewrite E. simpl. split; [| split; [exact Hfree | reflexivity]].
    destruct Hwhere as [(k & _ & ->) | Hgrid]; [| exact Hgrid].
    apply (candidate_in_grid m2 r k); assumption.
Qed.

Lemma initialize_game_places_food_witness :
  value (food (initialize_game PTR 1 2 blank (draws [])).1) = 10.
Proof.
  apply (initialize_game_places_food 1 2 blank (draws [])); [reflexivity |].
  right. lia.
Defined.

(** X19: on a grid of one row and one or two columns the snake covers every
    cell, and [initialize_game] leaves the food, position and value, as it
    found it in the object. *)
Theorem initialize_game_full_grid (w : Z) (m : GameState) (r : Rand) :
  array_ok m -> w = 1 \/ w = 2 ->
  food (initialize_game PTR w 1 m r).1 = food m.
Proof.
  intros Harr Hw. rewrite initialize_game_spawns.
  set (m2 := mkGame w 1 (place_snake (snake m) (Z.quot w 2) (Z.quot 1 2) 0 3)
                    INITIAL_SNAKE_LENGTH RIGHT (food m) 0 false).
  assert (Hfull : forall p : Point, in_grid m2 p -> occupied m2 p).
  { intros p [Hx Hy]. unfold m2 in *. cbn [width height] in Hx, Hy.
    apply laid_out_occupied; [exact Harr |].
    change (Z.quot 1 2) with 0.
    destruct Hw as [-> | ->];
      [change (Z.quot 1 2) with 0 | change (Z.quot 2 2) with 1]; lia. }
  destruct (spawn_food_outcome m2 r)
    as [(E & _) | (p & _ & Hfree & Hwhere)].
  - rewrite E. reflexivity.
  - exfalso. apply Hfree. apply Hfull.
    destruct Hwhere as [(k & _ & ->) | Hgrid]; [| exact Hgrid].
    apply (candidate_in_grid m2 r k); simpl; lia.
Qed.

Lemma initialize_game_full_grid_witness :
  food (initialize_game PTR 2 1 blank (draws [1; 0]%N)).1
  = mkFood (mkPoint 0 0) 0.
Proof.
  apply (initialize_game_full_grid 2 blank (draws [1; 0]%N));
    [reflexivity | right; reflexivity].
Defined.

(** ** Turns and first ticks *)

Lemma set_direction_accepts (m : GameState) (d : Direction) :
  d <> reverse (direction m) -> set_direction PTR d m = set_dir m d.
Proof.
  intros H. unfold set_direction.
  rewrite <- reversal_test in H. apply not_true_is_false in H. rewrite H.
  reflexivity.
Qed.

(** X20: the reversal guard looks at the stored direction only, so two turns
    between ticks reverse the snake: in a fresh game on a grid of at least
    two and at most 1431655765 columns (so that [width/2 - 1 + width] stays
    within [INT_MAX]), [set_direction(UP)] followed by [set_direction(LEFT)]
    is accepted, and the next tick runs the head into segment 1 and ends the
    game. *)
Theorem double_turn_ends_game (w h : Z) (m : GameState) (r r' : Rand) :
  array_ok m -> 2 <= w <= 1431655765 ->
  direction (set_direction PTR LEFT
               (set_direction PTR UP (initialize_game PTR w h m r).1)) = LEFT /\
  (update_game PTR
     (set_direction PTR LEFT
        (set_direction PTR UP (initialize_game PTR w h m r).1)) r').1.1 = true /\
  game_over
    (update_game PTR
       (set_direction PTR LEFT
          (set_direction PTR UP (initialize_game PTR w h m r).1)) r').1.2 = true.
Proof.
  intros Harr Hw.
  destruct (initialize_game_fields w h m r)
    as (HW & HH & Hlen & Hd & _ & Hgo & _).
  cbv zeta in *.
  set (m0 := (initialize_game PTR w h m r).1) in *.
  rewrite (set_direction_accepts m0 UP) by (rewrite Hd; discriminate).
  rewrite (set_direction_accepts (set_dir m0 UP) LEFT) by discriminate.
  set (m1 := set_dir (set_dir m0 UP) LEFT).
  assert (Hcoll : check_self_collision PTR (next_head m1) m1 = true).
  { apply check_self_collision_true. exists 1%nat.
    split; [lia |]. split.
    - unfold m1. cbn [snake_length set_dir]. rewrite Hlen.
      unfold INITIAL_SNAKE_LENGTH. lia.
    - unfold next_head, m1, cell. cbn [snake set_dir direction width height].
      fold (cell m0 1). fold (cell m0 0). unfold m0.
      rewrite !initialize_game_cells by exact Harr.
      fold m0. rewrite HW, HH. simpl.
      f_equal.
      pose proof (half_in_range w ltac:(lia)) as Hq.
      assert (Hq1 : 1 <= Z.quot w 2).
      { rewrite Z.quot_div_nonneg by lia.
        pose proof (Z.div_mod w 2 ltac:(lia)).
        pose proof (Z.mod_pos_bound w 2 ltac:(lia)). lia. }
      assert (Hq2 : Z.quot w 2 - 1 + w <= INT_MAX).
      { unfold INT_MAX. rewrite Z.quot_div_nonneg by lia.
        pose proof (Z.div_mod w 2 ltac:(lia)).
        pose proof (Z.mod_pos_bound w 2 ltac:(lia)). lia. }
      rewrite Z.sub_0_r.
      rewrite step_back by (unfold is_int, INT_MIN, INT_MAX in *; lia).
      destruct (Z.leb_spec (Z.quot w 2 - 1 + w) INT_MAX); [| lia].
      rewrite Z.rem_mod_nonneg by lia.
      apply (Z.mod_unique_pos _ _ 1); lia. }
  rewrite update_game_collides by (exact Hgo || exact Hcoll).
  repeat split.
Qed.

Lemma double_turn_ends_game_witness :
  game_over
    (update_game PTR
       (set_direction PTR LEFT (set_direction PTR UP fresh_game))
       (draws [])).1.2 = true.
Proof.
  apply (double_turn_ends_game 10 10 blank (draws [6; 5]%N) (draws []));
    [reflexivity | lia].
Defined.

(** X21: the first tick of a fresh game, on a grid of at least one column,
    ends the game exactly when the grid is two columns wide: the wrapped head
    then lands on segment 1. *)
Theorem first_tick_ends_game (w h : Z) (m : GameState) (r r' : Rand) :
  array_ok m -> 1 <= w ->
  (game_over (update_game PTR (initialize_game PTR w h m r).1 r').1.2 = true
   <-> w = 2).
Proof.
  intros Harr Hw.
  destruct (initialize_game_fields w h m r)
    as (HW & HH & Hlen & Hd & _ & Hgo & _).
  cbv zeta in *.
  set (m0 := (initialize_game PTR w h m r).1) in *.
  assert (Hnext : next_head m0
                  = mkPoint (Z.rem (wrap_int (Z.quot w 2 + 1)) w)
                            (Z.quot h 2)).
  { unfold next_head. rewrite Hd, HW, HH. unfold m0.
    rewrite initialize_game_cells by exact Harr. simpl.
    rewrite Z.sub_0_r. reflexivity. }
  assert (Hcell : forall i : nat,
             (i < 3)%nat ->
             cell m0 i = mkPoint (Z.quot w 2 - Z.of_nat i) (Z.quot h 2)).
  { intros i Hi. unfold m0. rewrite initialize_game_cells by exact Harr.
    destruct (decide (i < 3)%nat); [reflexivity | lia]. }
  pose proof (half_in_range w Hw) as Hq.
  destruct (check_self_collision PTR (next_head m0) m0) eqn:Hcoll.
  - rewrite update_game_collides by assumption. simpl.
    split; [intros _ | reflexivity].
    apply check_self_collision_true in Hcoll.
    destruct Hcoll as (i & Hi1 & Hi & E).
    rewrite Hlen in Hi. unfold INITIAL_SNAKE_LENGTH in Hi.
    rewrite Hnext, Hcell in E by lia. injection E as E.
    destruct (Z_le_gt_dec (Z.quot w 2 + 1) INT_MAX) as [Hfit | Hover].
    + rewrite wrap_int_small in E
        by (unfold is_int, INT_MIN, INT_MAX in *; lia).
      destruct (Z_lt_le_dec (Z.quot w 2 + 1) w) as [Hlt | Hge].
      * rewrite Z.rem_small in E by lia. lia.
      * assert (Hw2 : w = 1 \/ w = 2).
        { rewrite Z.quot_div_nonneg in Hge by lia.
          pose proof (Z.div_mod w 2 ltac:(lia)).
          pose proof (Z.mod_pos_bound w 2 ltac:(lia)). lia. }
        destruct Hw2 as [-> | ->]; [| reflexivity].
        change (Z.quot 1 2) with 0 in E.
        change (Z.rem (0 + 1) 1) with 0 in E. lia.
    + exfalso.
      pose proof (rem_le_max (wrap_int (Z.quot w 2 + 1)) w ltac:(lia)) as Hr.
      pose proof (wrap_int_range (Z.quot w 2 + 1)) as Hv.
      unfold is_int, INT_MIN, INT_MAX in *.
      destruct (Z_le_gt_dec (Z.quot w 2 + 1) (2147483647 + 4294967296))
        as [Hone | Hmore].
      * rewrite wrap_int_over in Hr, E by (unfold INT_MAX; lia). lia.
      * lia.
  - destruct (update_game_tick m0 r' Hgo Hcoll)
      as (m' & r2 & Hup & _ & _ & _ & Hgo' & _).
    rewrite Hup. cbn [fst snd]. rewrite Hgo'.
    split; [discriminate |]. intros ->. exfalso.
    apply not_true_iff_false in Hcoll. apply Hcoll.
    apply check_self_collision_true. exists 1%nat.
    split; [lia |]. split; [rewrite Hlen; reflexivity |].
    rewrite Hnext, Hcell by lia. reflexivity.
Qed.

Lemma first_tick_ends_game_witness :
  game_over
    (update_game PTR (initialize_game PTR 2 6 blank (draws [])).1
                 (draws [])).1.2 = true.
Proof.
  apply (proj2 (first_tick_ends_game 2 6 blank (draws []) (draws [])
                  eq_refl ltac:(lia))).
  reflexivity.
Defined.

Lemma Direction_eq_reverse (d cur : Direction) :
  d = reverse cur \/ d <> reverse cur.
Proof. destruct d, cur; simpl; (left; reflexivity) || (right; discriminate). Qed.

(** X22: [set_direction] changes no field but the direction, and asking for
    the same direction twice is the same as asking once. *)
Theorem set_direction_idempotent (m : GameState) (d : Direction) :
  set_direction PTR d (set_direction PTR d m) = set_direction PTR d m /\
  set_dir (set_direction PTR d m) (direction m) = set_dir m (direction m).
Proof.
  destruct (Direction_eq_reverse d (direction m)) as [E | E].
  - assert (H : set_direction PTR d m = m).
    { unfold set_direction.
      rewrite (proj2 (reversal_test (direction m) d) E). reflexivity. }
    rewrite !H. split; reflexivity.
  - rewrite (set_direction_accepts m d E). split; [| reflexivity].
    rewrite set_direction_accepts; [reflexivity |].
    simpl. destruct d; discriminate.
Qed.

(** X23: [reset_game] keeps the dimensions, restores length 3, score 0 and
    direction right, clears [game_over], and the tick that follows it is
    carried out: [update_game] returns [true] again. *)
Theorem reset_game_restarts (m : GameState) (r r' : Rand) :
  width (reset_game PTR m r).1 = width m /\
  height (reset_game PTR m r).1 = height m /\
  snake_length (reset_game PTR m r).1 = 3 /\
  score (reset_game PTR m r).1 = 0 /\
  direction (reset_game PTR m r).1 = RIGHT /\
  game_over (reset_game PTR m r).1 = false /\
  (update_game PTR (reset_game PTR m r).1 r').1.1 = true.
Proof.
  unfold reset_game.
  destruct (initialize_game_fields (width m) (height m) m r)
    as (HW & HH & Hlen & Hd & Hs & Hgo & _).
  cbv zeta in *.
  repeat split; auto.
  set (m0 := (initialize_game PTR (width m) (height m) m r).1) in *.
  destruct (check_self_collision PTR (next_head m0) m0) eqn:Hcoll.
  - rewrite update_game_collides by assumption. reflexivity.
  - destruct (update_game_tick m0 r' Hgo Hcoll) as (m' & r2 & Hup & _).
    rewrite Hup. reflexivity.
Qed.
